(** * workerpool: a fixed-size worker pool with graceful shutdown

    Shallow embedding of [worker-pool/workerpool/pool.go].

    The pool is concurrent: callers of [Submit] and [Shutdown], the worker
    goroutines started by [New] and the waiter goroutine started by
    [Shutdown] interleave at the granularity of their atomic operations
    (atomic loads, stores and adds, channel operations, [sync.Once],
    [sync.WaitGroup]).  Every goroutine is a thread with a program counter;
    one [step] performs one atomic operation of one thread.  A [select] is
    resolved by the scheduler, which may only pick a case that is ready.

    Time is not measured: the timer of [Shutdown] may fire at any moment,
    and a caller's context ends when the environment says so.  A job body
    is a function of what it sees of the pool's context: it is still
    running, or it returns an error value.  Panics of job bodies are left
    out, as in the package's own contract. *)

From Stdlib Require Import ZArith Lia String.
From stdpp Require Import base option list.

Open Scope Z_scope.

Module workerpool.

(** ** Values *)

(** Go's [error] values that occur in the package; the nil error is [None]
    of [option error]. *)
Inductive error : Type :=
  | ErrPoolClosed                              (* fmt.Errorf("worker pool is closed") *)
  | ErrShutdownTimeout                         (* fmt.Errorf("shutdown timeout elapsed; ...") *)
  | Canceled                                   (* context.Canceled *)
  | DeadlineExceeded                           (* context.DeadlineExceeded *)
  | Errorf_w (msg : string) (inner : error)    (* fmt.Errorf(msg + "%w", inner) *)
  | JobError (msg : string).                   (* any error made by a job body *)

(** [errors.Is]: identity with the target, or with something it wraps. *)
Fixpoint errors_Is (e target : error) : bool :=
  let same :=
    match e, target with
    | ErrPoolClosed, ErrPoolClosed => true
    | ErrShutdownTimeout, ErrShutdownTimeout => true
    | Canceled, Canceled => true
    | DeadlineExceeded, DeadlineExceeded => true
    | JobError a, JobError b => String.eqb a b
    | _, _ => false
    end in
  match e with
  | Errorf_w _ inner => same || errors_Is inner target
  | _ => same
  end.

(** Why a caller's context ended; [ctx.Err()] of a context that is done. *)
Inductive CtxReason : Type := ByCancel | ByDeadline.

Definition reason_err (r : CtxReason) : error :=
  match r with ByCancel => Canceled | ByDeadline => DeadlineExceeded end.

(** A caller's context: [None] while it is live, [Some r] once it is done. *)
Definition Context : Type := option CtxReason.

Definition ctx_Err (ctx : Context) : option error := reason_err <$> ctx.

(** What a running job body does when it is scheduled: it is still busy
    (or waiting), or it returns its error value. *)
Inductive JobOutcome : Type :=
  | Blocked
  | Returned (err : option error).

(** [type Job func(ctx context.Context) error].  The body sees the pool's
    context through [ctx.Err()] ([None] while the context is live). *)
Definition Job : Type := option error -> JobOutcome.

(** ** int64 counters *)

Definition wrap64 (z : Z) : Z := (z + 2 ^ 63) mod 2 ^ 64 - 2 ^ 63.

Definition AddInt64 (x delta : Z) : Z := wrap64 (x + delta).

Definition MaxInt64 : Z := 2 ^ 63 - 1.

(** ** Config *)

Definition Second : Z := 1000000000.

Record Config : Type := mkConfig {
  Workers : Z;
  QueueSize : Z;
  ShutdownTimeout : Z;          (* time.Duration, nanoseconds *)
  Logger : option nat           (* *log.Logger; nil is None *)
}.

(** [log.Default()]: the standard logger. *)
Definition log_Default : nat := 0%nat.

(** Variables of type [Config] that have an address. *)
Abbreviation Store := (list Config).

(** Results of code that can panic. *)
Inductive Res (A : Type) : Type :=
  | Ok (a : A)
  | Panic (msg : string).
Arguments Ok {A} a.
Arguments Panic {A} msg.

Definition res_bind {A B : Type} (r : Res A) (k : A -> Res B) : Res B :=
  match r with Ok a => k a | Panic m => Panic m end.

Notation "x <~ r ; k" := (res_bind r (fun x => k))
  (at level 100, r at next level, right associativity).

Definition deref (c : nat) (st : Store) : Res Config :=
  match st !! c with
  | Some v => Ok v
  | None => Panic "invalid memory address or nil pointer dereference"
  end.

(** [func (c *Config) withDefaults() Config]: reads the receiver once, then
    works on the copy [out]; nothing is written through [c]. *)
Definition withDefaults (c : nat) (st : Store) : Res (Config * Store) :=
  out <~ deref c st;
  let out := if Workers out <=? 0
             then mkConfig 1 (QueueSize out) (ShutdownTimeout out) (Logger out)
             else out in
  let out := if ShutdownTimeout out <=? 0
             then mkConfig (Workers out) (QueueSize out) (30 * Second) (Logger out)
             else out in
  let out := match Logger out with
             | None => mkConfig (Workers out) (QueueSize out) (ShutdownTimeout out)
                         (Some log_Default)
             | Some _ => out
             end in
  Ok (out, st).

(** ** Metrics *)

Record Metrics : Type := mkMetrics {
  Submitted : Z;
  Started : Z;
  Succeeded : Z;
  Failed : Z;
  Dropped : Z
}.

Definition inc_Submitted (m : Metrics) : Metrics :=
  mkMetrics (AddInt64 (Submitted m) 1) (Started m) (Succeeded m) (Failed m) (Dropped m).
Definition inc_Started (m : Metrics) : Metrics :=
  mkMetrics (Submitted m) (AddInt64 (Started m) 1) (Succeeded m) (Failed m) (Dropped m).
Definition inc_Succeeded (m : Metrics) : Metrics :=
  mkMetrics (Submitted m) (Started m) (AddInt64 (Succeeded m) 1) (Failed m) (Dropped m).
Definition inc_Failed (m : Metrics) : Metrics :=
  mkMetrics (Submitted m) (Started m) (Succeeded m) (AddInt64 (Failed m) 1) (Dropped m).
Definition inc_Dropped (m : Metrics) : Metrics :=
  mkMetrics (Submitted m) (Started m) (Succeeded m) (Failed m) (AddInt64 (Dropped m) 1).

(** ** Pool *)

(** [chan Job]: the buffered jobs in arrival order, the capacity, and
    whether [close] was called. *)
Record Chan : Type := mkChan {
  buf : list Job;
  cap : Z;
  ch_closed : bool
}.

(** [make(chan Job, size)] panics on a negative size.  The runtime's upper
    limit on the size of the allocation is left out. *)
Definition make_chan (size : Z) : Res Chan :=
  if size <? 0 then Panic "makechan: size out of range"
  else Ok (mkChan [] size false).

(** [sync.Once]: not yet called, inside the first call, first call done. *)
Inductive OnceState : Type := OnceFresh | OnceRunning | OnceDone.

(** Lines written to [cfg.Logger]. *)
Inductive LogLine : Type :=
  | LPoolStarting (workers queue : Z) (timeout : Z)
  | LShutdownInitiated
  | LShutdownClean
  | LShutdownTimeout (timeout : Z)
  | LShutdownForced
  | LWorkerStarted (id : Z)
  | LWorkerSkipping (id : Z)
  | LJobFailed (id : Z) (err : error)
  | LWorkerExited (id : Z).

Record Pool : Type := mkPool {
  cfg : Config;
  jobs : Chan;
  wg : Z;                       (* sync.WaitGroup counter: live workers *)
  metrics : Metrics;
  workerCtx : option error;     (* workerCtx.Err(); cancelWorkers sets it *)
  once : OnceState;
  closed : Z;                   (* int32 flag *)
  logged : list LogLine         (* output of cfg.Logger, oldest first *)
}.

Definition with_jobs (p : Pool) (c : Chan) : Pool :=
  mkPool (cfg p) c (wg p) (metrics p) (workerCtx p) (once p) (closed p) (logged p).
Definition with_wg (p : Pool) (n : Z) : Pool :=
  mkPool (cfg p) (jobs p) n (metrics p) (workerCtx p) (once p) (closed p) (logged p).
Definition with_metrics (p : Pool) (m : Metrics) : Pool :=
  mkPool (cfg p) (jobs p) (wg p) m (workerCtx p) (once p) (closed p) (logged p).
Definition with_workerCtx (p : Pool) (e : option error) : Pool :=
  mkPool (cfg p) (jobs p) (wg p) (metrics p) e (once p) (closed p) (logged p).
Definition with_once (p : Pool) (o : OnceState) : Pool :=
  mkPool (cfg p) (jobs p) (wg p) (metrics p) (workerCtx p) o (closed p) (logged p).
Definition with_closed (p : Pool) (c : Z) : Pool :=
  mkPool (cfg p) (jobs p) (wg p) (metrics p) (workerCtx p) (once p) c (logged p).
Definition Printf (p : Pool) (l : LogLine) : Pool :=
  mkPool (cfg p) (jobs p) (wg p) (metrics p) (workerCtx p) (once p) (closed p)
    (logged p ++ [l]).

(** [cancelWorkers()]: cancels [workerCtx]; a second call changes nothing. *)
Definition cancelWorkers (p : Pool) : Pool :=
  match workerCtx p with
  | None => with_workerCtx p (Some Canceled)
  | Some _ => p
  end.

(** [func (p *Pool) Metrics() Metrics]: five atomic loads. *)
Definition PoolMetrics (p : Pool) : Metrics :=
  mkMetrics (Submitted (metrics p)) (Started (metrics p)) (Succeeded (metrics p))
    (Failed (metrics p)) (Dropped (metrics p)).

(** ** Goroutines *)

(** [runWorker]. *)
Inductive WorkerPc : Type :=
  | WInit                              (* log "started" *)
  | WRange                             (* for job := range p.jobs *)
  | WCheck (job : Job)                 (* if p.workerCtx.Err() != nil *)
  | WSkip                              (* log, Failed++, continue *)
  | WIncStarted (job : Job)            (* Started++ *)
  | WCall (job : Job)                  (* job(p.workerCtx) *)
  | WRecord (err : option error)       (* Failed++ or Succeeded++ *)
  | WAfterLoop                         (* log "exited"; deferred wg.Done() *)
  | WDone.

(** [Submit]. *)
Inductive SubmitPc : Type :=
  | SEntry                             (* atomic.LoadInt32(&p.closed) == 1 *)
  | SDropClosed                        (* Dropped++; return ErrPoolClosed *)
  | SIncSubmitted                      (* Submitted++ *)
  | SSelect                            (* select { p.jobs <- job; <-ctx.Done() } *)
  | SDropCancelled                     (* Dropped++; return Errorf(...) *)
  | SReturn (err : option error)
  | SPanic (msg : string).

(** [Shutdown]. *)
Inductive ShutdownPc : Type :=
  | ShEntry                            (* p.once.Do *)
  | ShStore                            (* atomic.StoreInt32(&p.closed, 1) *)
  | ShClose                            (* close(p.jobs) *)
  | ShSpawn                            (* done := make(...); go func ... *)
  | ShSelect                           (* select { <-done; <-time.After } *)
  | ShCancel                           (* p.cancelWorkers() *)
  | ShAwait                            (* <-done *)
  | ShReturn (err : option error)
  | ShPanic (msg : string).

(** The goroutine [func() { p.wg.Wait(); close(done) }]. *)
Inductive WaiterPc : Type :=
  | WtWait
  | WtClose
  | WtDone.

Inductive Thread : Type :=
  | TWorker (id : Z) (pc : WorkerPc)
  | TSubmit (ctx : Context) (job : Job) (pc : SubmitPc)
  | TShutdown (pc : ShutdownPc)
  | TWaiter (pc : WaiterPc).

(** The running program: the pool, the [done] channel made by the body of
    [once.Do] ([true] once it is closed), and all goroutines. *)
Record Sys : Type := mkSys {
  pool : Pool;
  doneCh : bool;
  threads : list Thread
}.

(** ** New *)

(** One round of [for i := 0; i < cfg.Workers; i++]:
    [p.wg.Add(1); go p.runWorker(i)]. *)
Definition start_worker (s : Sys) (i : Z) : Sys :=
  mkSys (with_wg (pool s) (wg (pool s) + 1)) (doneCh s)
    (threads s ++ [TWorker i WInit]).

(** [func New(cfg Config) *Pool].  The parameter is a copy of the caller's
    value in a cell of its own; [cfg.withDefaults()] takes that cell's
    address and the result is stored back into it. *)
Definition New (arg : Config) (st : Store) : Res (Sys * Store) :=
  let c := length st in
  let st := st ++ [arg] in
  r <~ withDefaults c st;
  let st := <[c := r.1]> r.2 in
  cfg <~ deref c st;
  ch <~ make_chan (QueueSize cfg);
  let p := mkPool cfg ch 0 (mkMetrics 0 0 0 0 0) None OnceFresh 0 [] in
  let p := Printf p (LPoolStarting (Workers cfg) (QueueSize cfg) (ShutdownTimeout cfg)) in
  Ok (foldl start_worker (mkSys p false []) (seqZ 0 (Workers cfg)), st).

(** The goroutines of callers, added to a pool that [New] returned. *)
Definition go (s : Sys) (ts : list Thread) : Sys :=
  mkSys (pool s) (doneCh s) (threads s ++ ts).

Definition submit_call (ctx : Context) (job : Job) : Thread := TSubmit ctx job SEntry.
Definition shutdown_call : Thread := TShutdown ShEntry.

(** ** Atomic steps *)

(** The case of a [select] that the scheduler picks, in source order. *)
Inductive SelCase : Type := Case1 | Case2.

(** Result of one atomic operation of a thread: its next program point,
    the pool, the [done] channel and the goroutines it started. *)
Definition StepOut : Type := Thread * Pool * bool * list Thread.

Definition out (t : Thread) (p : Pool) (d : bool) : option StepOut :=
  Some (t, p, d, []).

(** [runWorker(id)]; a receive with an empty, open channel is not enabled. *)
Definition worker_step (id : Z) (pc : WorkerPc) (p : Pool) (d : bool)
  : option StepOut :=
  match pc with
  | WInit => out (TWorker id WRange) (Printf p (LWorkerStarted id)) d
  | WRange =>
      match buf (jobs p) with
      | job :: rest =>
          out (TWorker id (WCheck job))
            (with_jobs p (mkChan rest (cap (jobs p)) (ch_closed (jobs p)))) d
      | [] => if ch_closed (jobs p) then out (TWorker id WAfterLoop) p d else None
      end
  | WCheck job =>
      match workerCtx p with
      | Some _ => out (TWorker id WSkip) p d
      | None => out (TWorker id (WIncStarted job)) p d
      end
  | WSkip =>
      let p := Printf p (LWorkerSkipping id) in
      out (TWorker id WRange) (with_metrics p (inc_Failed (metrics p))) d
  | WIncStarted job =>
      out (TWorker id (WCall job)) (with_metrics p (inc_Started (metrics p))) d
  | WCall job =>
      match job (workerCtx p) with
      | Returned err => out (TWorker id (WRecord err)) p d
      | Blocked => None
      end
  | WRecord (Some err) =>
      let p := with_metrics p (inc_Failed (metrics p)) in
      out (TWorker id WRange) (Printf p (LJobFailed id err)) d
  | WRecord None =>
      out (TWorker id WRange) (with_metrics p (inc_Succeeded (metrics p))) d
  | WAfterLoop =>
      let p := Printf p (LWorkerExited id) in
      out (TWorker id WDone) (with_wg p (wg p - 1)) d
  | WDone => None
  end.

(** [Submit(ctx, job)].  The send case of the select is ready when the
    buffer has room, and panics when the channel is closed; a send straight
    to a worker blocked in its receive is the [Handoff] action below. *)
Definition submit_step (c : SelCase) (ctx : Context) (job : Job) (pc : SubmitPc)
    (p : Pool) (d : bool) : option StepOut :=
  match pc with
  | SEntry =>
      if closed p =? 1 then out (TSubmit ctx job SDropClosed) p d
      else out (TSubmit ctx job SIncSubmitted) p d
  | SDropClosed =>
      out (TSubmit ctx job (SReturn (Some ErrPoolClosed)))
        (with_metrics p (inc_Dropped (metrics p))) d
  | SIncSubmitted =>
      out (TSubmit ctx job SSelect) (with_metrics p (inc_Submitted (metrics p))) d
  | SSelect =>
      match c with
      | Case1 =>
          if ch_closed (jobs p)
          then out (TSubmit ctx job (SPanic "send on closed channel")) p d
          else if Z.of_nat (length (buf (jobs p))) <? cap (jobs p)
          then out (TSubmit ctx job (SReturn None))
                 (with_jobs p (mkChan (buf (jobs p) ++ [job]) (cap (jobs p)) false)) d
          else None
      | Case2 =>
          match ctx with
          | Some _ => out (TSubmit ctx job SDropCancelled) p d
          | None => None
          end
      end
  | SDropCancelled =>
      match ctx_Err ctx with
      | Some e =>
          out (TSubmit ctx job (SReturn (Some (Errorf_w "submit cancelled: " e))))
            (with_metrics p (inc_Dropped (metrics p))) d
      | None => None
      end
  | SReturn _ => None
  | SPanic _ => None
  end.

(** [Shutdown()].  [once.Do] lets the first caller in and makes the others
    wait until it has left; the timer case of the select is always ready,
    time being free to pass. *)
Definition shutdown_step (c : SelCase) (pc : ShutdownPc) (p : Pool) (d : bool)
  : option StepOut :=
  match pc with
  | ShEntry =>
      match once p with
      | OnceFresh =>
          out (TShutdown ShStore) (Printf (with_once p OnceRunning) LShutdownInitiated) d
      | OnceRunning => None
      | OnceDone => out (TShutdown (ShReturn None)) p d
      end
  | ShStore => out (TShutdown ShClose) (with_closed p 1) d
  | ShClose =>
      if ch_closed (jobs p)
      then out (TShutdown (ShPanic "close of closed channel")) p d
      else out (TShutdown ShSpawn)
             (with_jobs p (mkChan (buf (jobs p)) (cap (jobs p)) true)) d
  | ShSpawn => Some (TShutdown ShSelect, p, false, [TWaiter WtWait])
  | ShSelect =>
      match c with
      | Case1 =>
          if d
          then out (TShutdown (ShReturn None))
                 (with_once (Printf p LShutdownClean) OnceDone) d
          else None
      | Case2 =>
          out (TShutdown ShCancel)
            (Printf p (LShutdownTimeout (ShutdownTimeout (cfg p)))) d
      end
  | ShCancel => out (TShutdown ShAwait) (cancelWorkers p) d
  | ShAwait =>
      if d
      then out (TShutdown (ShReturn (Some ErrShutdownTimeout)))
             (with_once (Printf p LShutdownForced) OnceDone) d
      else None
  | ShReturn _ => None
  | ShPanic _ => None
  end.

(** [p.wg.Wait(); close(done)]. *)
Definition waiter_step (pc : WaiterPc) (p : Pool) (d : bool) : option StepOut :=
  match pc with
  | WtWait => if wg p =? 0 then out (TWaiter WtClose) p d else None
  | WtClose => out (TWaiter WtDone) p true
  | WtDone => None
  end.

Definition tstep (c : SelCase) (t : Thread) (p : Pool) (d : bool) : option StepOut :=
  match t with
  | TWorker id pc => worker_step id pc p d
  | TSubmit ctx job pc => submit_step c ctx job pc p d
  | TShutdown pc => shutdown_step c pc p d
  | TWaiter pc => waiter_step pc p d
  end.

(** What the scheduler and the environment can do. *)
Inductive Action : Type :=
  | Run (i : nat) (c : SelCase)        (* thread i does its next operation *)
  | Handoff (i w : nat)                (* submitter i sends to worker w, which is
                                          blocked in its receive *)
  | CtxDone (i : nat) (r : CtxReason). (* the context of submitter i ends *)

Definition step (a : Action) (s : Sys) : option Sys :=
  match a with
  | Run i c =>
      t ← threads s !! i;
      r ← tstep c t (pool s) (doneCh s);
      let '(t', p', d', forked) := r in
      Some (mkSys p' d' (<[i := t']> (threads s) ++ forked))
  | Handoff i w =>
      match threads s !! i, threads s !! w with
      | Some (TSubmit ctx job SSelect), Some (TWorker id WRange) =>
          match buf (jobs (pool s)), ch_closed (jobs (pool s)) with
          | [], false =>
              Some (mkSys (pool s) (doneCh s)
                      (<[w := TWorker id (WCheck job)]>
                         (<[i := TSubmit ctx job (SReturn None)]> (threads s))))
          | _, _ => None
          end
      | _, _ => None
      end
  | CtxDone i r =>
      match threads s !! i with
      | Some (TSubmit None job pc) =>
          Some (mkSys (pool s) (doneCh s) (<[i := TSubmit (Some r) job pc]> (threads s)))
      | _ => None
      end
  end.

(** A schedule, run from left to right. *)
Fixpoint exec (tr : list Action) (s : Sys) : option Sys :=
  match tr with
  | [] => Some s
  | a :: tr => s' ← step a s; exec tr s'
  end.

(** A goroutine has panicked: the program is gone. *)
Definition panicked (t : Thread) : bool :=
  match t with
  | TSubmit _ _ (SPanic _) | TShutdown (ShPanic _) => true
  | _ => false
  end.

Definition crashed (s : Sys) : bool := existsb panicked (threads s).

(** * Definitions used by the properties *)

(** ** Notions the statements use *)

(** The configuration a pool runs with, as [withDefaults] computes it. *)
Definition effective (c : Config) : Config :=
  mkConfig (if Workers c <=? 0 then 1 else Workers c)
           (QueueSize c)
           (if ShutdownTimeout c <=? 0 then 30 * Second else ShutdownTimeout c)
           (Some (default log_Default (Logger c))).

(** A call that has returned, a goroutine that has ended or panicked:
    no operation of the thread is left. *)
Definition finished (t : Thread) : bool :=
  match t with
  | TWorker _ WDone | TSubmit _ _ (SReturn _) | TSubmit _ _ (SPanic _)
  | TShutdown (ShReturn _) | TShutdown (ShPanic _) | TWaiter WtDone => true
  | _ => false
  end.

(** A worker blocked in its receive. *)
Definition receiving (t : Thread) : bool :=
  match t with TWorker _ WRange => true | _ => false end.

(** The send case of [Submit]'s select can proceed: the channel is closed
    (the send panics), the buffer has room, or a worker waits to receive. *)
Definition send_ready (s : Sys) : bool :=
  ch_closed (jobs (pool s))
  || (Z.of_nat (length (buf (jobs (pool s)))) <? cap (jobs (pool s)))
  || match buf (jobs (pool s)) with
     | [] => existsb receiving (threads s)
     | _ :: _ => false
     end.

(** The error of a [Submit] given up because the caller's context ended. *)
Definition cancelled_submit (rsn : CtxReason) : error :=
  Errorf_w "submit cancelled: " (reason_err rsn).

(** The caller's context ends while the call waits, unless it was
    already done when the call was made. *)
Definition ctx_ends (i : nat) (ctx : Context) (rsn : CtxReason) : list Action :=
  match ctx with None => [CtxDone i rsn] | Some _ => [] end.

Definition ctx_reason (ctx : Context) (rsn : CtxReason) : CtxReason := default rsn ctx.

(** Thread [i] of [s], a [Submit] of [job], arrived at its select. *)
Definition at_select (s : Sys) (i : nat) (job : Job) (c : Context) : Sys :=
  mkSys (with_metrics (pool s) (inc_Submitted (metrics (pool s)))) (doneCh s)
    (<[i := TSubmit c job SSelect]> (threads s)).


(** No job is queued or in a worker's hands. *)
Definition quiescent (s : Sys) : bool :=
  match buf (jobs (pool s)) with
  | [] => forallb (fun t => match t with
                            | TWorker _ (WCheck _) | TWorker _ WSkip
                            | TWorker _ (WIncStarted _) | TWorker _ (WCall _)
                            | TWorker _ (WRecord _) => false
                            | _ => true
                            end) (threads s)
  | _ :: _ => false
  end.

(** A call that has not begun. *)
Definition at_entry (t : Thread) : bool :=
  match t with
  | TSubmit _ _ SEntry | TShutdown ShEntry => true
  | _ => false
  end.

(** States of a pool made by [New] and used by callers of [Submit] and
    [Shutdown] under any schedule. *)
Definition reachable (s : Sys) : Prop :=
  exists (c : Config) (st st' : Store) (s0 : Sys) (clients : list Thread)
         (tr : list Action),
    New c st = Ok (s0, st')
    /\ Forall (fun t => at_entry t = true) clients
    /\ exec tr (go s0 clients) = Some s.

(** The call has taken the timer case of the select. *)
Definition on_timeout_path (t : Thread) : bool :=
  match t with
  | TShutdown (ShCancel | ShAwait | ShReturn (Some _)) => true
  | _ => false
  end.

Definition submit_result_ok (t : Thread) : Prop :=
  match t with
  | TSubmit ctx job (SReturn r) =>
      r = None \/ r = Some ErrPoolClosed
      \/ exists rsn, ctx = Some rsn /\ r = Some (cancelled_submit rsn)
  | _ => True
  end.

(** ** Counting goroutines, and the invariants *)

Fixpoint count (P : Thread -> bool) (l : list Thread) : Z :=
  match l with
  | [] => 0
  | t :: l => (if P t then 1 else 0) + count P l
  end.

(** Inside the body of [once.Do], before any cancellation. *)
Definition sh_deciding (t : Thread) : bool :=
  match t with
  | TShutdown (ShStore | ShClose | ShSpawn | ShSelect | ShCancel | ShPanic _) => true
  | _ => false
  end.

(** Inside the body, having cancelled the workers. *)
Definition sh_forced (t : Thread) : bool :=
  match t with TShutdown ShAwait => true | _ => false end.

Definition sh_timed_out (t : Thread) : bool :=
  match t with TShutdown (ShReturn (Some _)) => true | _ => false end.

(** Returned an error other than [ErrShutdownTimeout]. *)
Definition sh_other_error (t : Thread) : bool :=
  match t with
  | TShutdown (ShReturn (Some ErrShutdownTimeout)) => false
  | TShutdown (ShReturn (Some _)) => true
  | _ => false
  end.

Definition sh_returned (t : Thread) : bool :=
  match t with TShutdown (ShReturn _) => true | _ => false end.

Definition w_live (t : Thread) : bool :=
  match t with TWorker _ WDone => false | TWorker _ _ => true | _ => false end.

(** The waiter has seen the wait group at zero. *)
Definition wt_released (t : Thread) : bool :=
  match t with TWaiter (WtClose | WtDone) => true | _ => false end.

Definition running (o : OnceState) : Z :=
  match o with OnceRunning => 1 | _ => 0 end.

Definition completed (o : OnceState) : Z :=
  match o with OnceDone => 1 | _ => 0 end.

Definition cancelled (e : option error) : Z :=
  match e with Some _ => 1 | None => 0 end.

Record Inv (s : Sys) : Prop := mkInv {
  inv_body :
    count sh_deciding (threads s) + count sh_forced (threads s) = running (once (pool s));
  inv_cancel :
    count sh_forced (threads s) + count sh_timed_out (threads s)
    = cancelled (workerCtx (pool s));
  inv_timed : count sh_timed_out (threads s) <= completed (once (pool s));
  inv_wg : wg (pool s) = count w_live (threads s);
  inv_waiter : 0 < count wt_released (threads s) -> wg (pool s) = 0;
  inv_done : doneCh s = true -> wg (pool s) = 0;
  inv_ctx : workerCtx (pool s) = None \/ workerCtx (pool s) = Some Canceled;
  inv_ret : count sh_other_error (threads s) = 0;
  inv_returned : 0 < count sh_returned (threads s) -> completed (once (pool s)) = 1
}.

(** Calls of [Submit], by how far they are. *)
Definition sub_new (t : Thread) : bool :=
  match t with TSubmit _ _ (SEntry | SIncSubmitted | SDropClosed) => true | _ => false end.

Definition sub_refused (t : Thread) : bool :=
  match t with TSubmit _ _ (SReturn (Some ErrPoolClosed)) => true | _ => false end.

Definition sub_trying (t : Thread) : bool :=
  match t with TSubmit _ _ (SSelect | SDropCancelled | SPanic _) => true | _ => false end.

Definition sub_given_up (t : Thread) : bool :=
  match t with
  | TSubmit _ _ (SReturn (Some ErrPoolClosed)) => false
  | TSubmit _ _ (SReturn (Some _)) => true
  | _ => false
  end.

Definition sub_sent (t : Thread) : bool :=
  match t with TSubmit _ _ (SReturn None) => true | _ => false end.

(** Workers with a received job not yet started, and with a started job
    not yet recorded. *)
Definition w_holding (t : Thread) : bool :=
  match t with TWorker _ (WCheck _ | WSkip | WIncStarted _) => true | _ => false end.

Definition w_running (t : Thread) : bool :=
  match t with TWorker _ (WCall _ | WRecord _) => true | _ => false end.

(** Workers about to count a job they skipped. *)
Definition w_skipping (t : Thread) : bool :=
  match t with TWorker _ WSkip => true | _ => false end.

(** [n] is the number of calls of [Submit], made or still to be made. *)
Record Accounting (n : Z) (s : Sys) : Prop := mkAccounting {
  acc_calls :
    count sub_new (threads s) + count sub_refused (threads s)
    + count sub_trying (threads s) + count sub_given_up (threads s)
    + count sub_sent (threads s) = n;
  acc_submitted :
    Submitted (metrics (pool s))
    = count sub_trying (threads s) + count sub_given_up (threads s)
      + count sub_sent (threads s);
  acc_dropped :
    Dropped (metrics (pool s))
    = count sub_refused (threads s) + count sub_given_up (threads s);
  acc_jobs :
    Succeeded (metrics (pool s)) + Failed (metrics (pool s))
    + count w_holding (threads s) + count w_running (threads s)
    + Z.of_nat (length (buf (jobs (pool s))))
    = count sub_sent (threads s);
  acc_started :
    0 <= Started (metrics (pool s))
    <= Succeeded (metrics (pool s)) + Failed (metrics (pool s))
       + count w_running (threads s);
  acc_succeeded : 0 <= Succeeded (metrics (pool s));
  acc_failed : 0 <= Failed (metrics (pool s));
  acc_clean :
    workerCtx (pool s) = None ->
    count w_skipping (threads s) = 0
    /\ Started (metrics (pool s))
       = Succeeded (metrics (pool s)) + Failed (metrics (pool s))
         + count w_running (threads s)
}.

(** How often "[pool] shutdown initiated" was logged: how often the body
    of [once.Do] was entered. *)
Fixpoint initiations (l : list LogLine) : Z :=
  match l with
  | [] => 0
  | LShutdownInitiated :: l => 1 + initiations l
  | _ :: l => initiations l
  end.

Definition entered (o : OnceState) : Z :=
  match o with OnceFresh => 0 | _ => 1 end.

(** ** Further counts and invariants *)

Definition is_worker (t : Thread) : bool :=
  match t with TWorker _ _ => true | _ => false end.

(** Workers that have left the receive loop. *)
Definition w_gone (t : Thread) : bool :=
  match t with TWorker _ (WAfterLoop | WDone) => true | _ => false end.

Definition sh_storing (t : Thread) : bool :=
  match t with TShutdown ShStore => true | _ => false end.

(** Inside the body of [once.Do], before [close(p.jobs)]. *)
Definition sh_before_close (t : Thread) : bool :=
  match t with TShutdown (ShStore | ShClose) => true | _ => false end.

Definition sh_panicked (t : Thread) : bool :=
  match t with TShutdown (ShPanic _) => true | _ => false end.

(** A [Submit] that has returned an error. *)
Definition sub_errored (t : Thread) : bool :=
  match t with TSubmit _ _ (SReturn (Some _)) => true | _ => false end.

Definition b2z (b : bool) : Z := if b then 1 else 0.

(** What follows from how [New] builds the pool and how the goroutines
    use the queue, the closed flag and the [done] channel; [e] is the
    configuration the pool runs with. *)
Record Shape (e : Config) (s : Sys) : Prop := mkShape {
  shape_cfg : cfg (pool s) = e;
  shape_workers : count is_worker (threads s) = Workers e;
  shape_cap : cap (jobs (pool s)) = QueueSize e;
  shape_buf : Z.of_nat (length (buf (jobs (pool s)))) <= QueueSize e;
  shape_gone :
    0 < count w_gone (threads s) ->
    Z.of_nat (length (buf (jobs (pool s)))) = 0
    /\ b2z (ch_closed (jobs (pool s))) = 1;
  shape_close :
    count sh_before_close (threads s) + b2z (ch_closed (jobs (pool s)))
    = entered (once (pool s));
  shape_flag :
    closed (pool s) = entered (once (pool s)) - count sh_storing (threads s);
  shape_panic : count sh_panicked (threads s) = 0;
  shape_done : completed (once (pool s)) = 1 -> b2z (doneCh s) = 1
}.

(** How often "skipping job: context already cancelled" was logged. *)
Fixpoint skips (l : list LogLine) : Z :=
  match l with
  | [] => 0
  | LWorkerSkipping _ :: l => 1 + skips l
  | _ :: l => skips l
  end.

(** Every job that was started or skipped is recorded or still running. *)
Definition skip_law (s : Sys) : Prop :=
  Started (metrics (pool s)) + skips (logged (pool s))
  = Succeeded (metrics (pool s)) + Failed (metrics (pool s))
    + count w_running (threads s).

(** States of the pool that [New c] made, used by the calls [clients]. *)
Definition reached (c : Config) (clients : list Thread) (s : Sys) : Prop :=
  exists (st st' : Store) (s0 : Sys) (tr : list Action),
    New c st = Ok (s0, st')
    /\ Forall (fun t => at_entry t = true) clients
    /\ exec tr (go s0 clients) = Some s.

(** No counter is smaller in [m'] than in [m]. *)
Definition counters_le (m m' : Metrics) : Prop :=
  Submitted m <= Submitted m' /\ Started m <= Started m'
  /\ Succeeded m <= Succeeded m' /\ Failed m <= Failed m'
  /\ Dropped m <= Dropped m'.

(** ** A call of Metrics beside the goroutines of the pool *)

(** [func (p *Pool) Metrics() Metrics] does its five atomic loads in
    source order, with no lock: a program point holds the fields loaded
    so far. *)
Inductive MetricsPc : Type :=
  | MLoadSubmitted                     (* atomic.LoadInt64(&p.metrics.Submitted) *)
  | MLoadStarted (a : Z)               (* atomic.LoadInt64(&p.metrics.Started) *)
  | MLoadSucceeded (a b : Z)           (* atomic.LoadInt64(&p.metrics.Succeeded) *)
  | MLoadFailed (a b c : Z)            (* atomic.LoadInt64(&p.metrics.Failed) *)
  | MLoadDropped (a b c d : Z)         (* atomic.LoadInt64(&p.metrics.Dropped) *)
  | MReturn (m : Metrics).             (* return Metrics{...} *)

Definition Metrics_step (p : Pool) (pc : MetricsPc) : option MetricsPc :=
  match pc with
  | MLoadSubmitted => Some (MLoadStarted (Submitted (metrics p)))
  | MLoadStarted a => Some (MLoadSucceeded a (Started (metrics p)))
  | MLoadSucceeded a b => Some (MLoadFailed a b (Succeeded (metrics p)))
  | MLoadFailed a b c => Some (MLoadDropped a b c (Failed (metrics p)))
  | MLoadDropped a b c d => Some (MReturn (mkMetrics a b c d (Dropped (metrics p))))
  | MReturn _ => None
  end.

(** Either a goroutine of the pool does an operation, or the caller of
    [Metrics] does its next load. *)
Inductive Event : Type :=
  | Goroutine (a : Action)
  | Load.

Definition observe_step (e : Event) (x : Sys * MetricsPc) : option (Sys * MetricsPc) :=
  match e with
  | Goroutine a => s' ← step a x.1; Some (s', x.2)
  | Load => pc' ← Metrics_step (pool x.1) x.2; Some (x.1, pc')
  end.

Fixpoint observe (es : list Event) (x : Sys * MetricsPc) : option (Sys * MetricsPc) :=
  match es with
  | [] => Some x
  | e :: es => x' ← observe_step e x; observe es x'
  end.

(** The fields loaded so far lie between the counters [lo] and [hi]. *)
Definition loaded_between (lo hi : Metrics) (pc : MetricsPc) : Prop :=
  match pc with
  | MLoadSubmitted => True
  | MLoadStarted a => Submitted lo <= a <= Submitted hi
  | MLoadSucceeded a b =>
      Submitted lo <= a <= Submitted hi /\ Started lo <= b <= Started hi
  | MLoadFailed a b c =>
      Submitted lo <= a <= Submitted hi /\ Started lo <= b <= Started hi
      /\ Succeeded lo <= c <= Succeeded hi
  | MLoadDropped a b c d =>
      Submitted lo <= a <= Submitted hi /\ Started lo <= b <= Started hi
      /\ Succeeded lo <= c <= Succeeded hi /\ Failed lo <= d <= Failed hi
  | MReturn m => counters_le lo m /\ counters_le m hi
  end.

(** ** Scenarios *)

(** A pool made by [New] in an empty store, with the callers' goroutines. *)
Definition boot (c : Config) (clients : list Thread) : option Sys :=
  match New c [] with
  | Ok (s, _) => Some (go s clients)
  | Panic _ => None
  end.

Definition play (c : Config) (clients : list Thread) (tr : list Action) : option Sys :=
  boot c clients ≫= exec tr.

Definition no_pool : Sys :=
  mkSys (mkPool (mkConfig 0 0 0 None) (mkChan [] 0 false) 0 (mkMetrics 0 0 0 0 0)
           None OnceFresh 0 []) false [].

Definition the (o : option Sys) : Sys := default no_pool o.

(** Job bodies of the package's tests. *)
Definition job_ok : Job := fun _ => Returned None.
Definition job_fail : Job := fun _ => Returned (Some (JobError "intentional")).
(** [<-ctx.Done(); return ctx.Err()] *)
Definition job_until_cancelled : Job :=
  fun e => match e with Some err => Returned (Some err) | None => Blocked end.

(** One worker, then [Shutdown] (thread 1) up to the store of the closed
    flag, with a [Submit] (thread 2) that has not started yet. *)
Definition closed_pool : Sys :=
  the (play (mkConfig 1 0 Second None)
         [shutdown_call; submit_call None job_ok]
         [Run 0 Case1; Run 1 Case1; Run 1 Case1]).

(** One worker busy with a job that waits for cancellation, an unbuffered
    queue, and a second [Submit] (thread 2) not yet started: the setting
    of TestSubmitRespectsCallerContext. *)
Definition busy_pool : Sys :=
  the (play (mkConfig 1 0 Second None)
         [submit_call None job_until_cancelled; submit_call None job_ok]
         [Run 0 Case1; Run 1 Case1; Run 1 Case1; Handoff 1 0; Run 0 Case1; Run 0 Case1]).

(** A worker that has just received a job from an unbuffered queue. *)
Definition received_pool : Sys :=
  the (play (mkConfig 1 0 Second None) [submit_call None job_fail]
         [Run 0 Case1; Run 1 Case1; Run 1 Case1; Handoff 1 0]).

(** One worker, room for two jobs, a 50 ms timeout; two jobs that wait for
    cancellation, and two calls of [Shutdown].  Threads: 0 the worker, 1
    and 2 the submitters, 3 and 4 the callers of [Shutdown], 5 the waiter. *)
Definition forced_cfg : Config := mkConfig 1 2 (Second / 20) None.

Definition forced_clients : list Thread :=
  [submit_call None job_until_cancelled; submit_call None job_until_cancelled;
   shutdown_call; shutdown_call].

Definition R (i : nat) : Action := Run i Case1.

(** Both jobs are queued, the worker runs the first; [Shutdown] times
    out and cancels; the first job returns [ctx.Err()], the second is
    received with the context already cancelled and skipped. *)
Definition forced_drain : list Action :=
  [R 0; R 1; R 1; R 1; R 2; R 2; R 2;
   R 0; R 0; R 0;
   R 3; R 3; R 3; R 3; Run 3 Case2; R 3;
   R 0; R 0;
   R 0; R 0; R 0]%nat.

(** The worker leaves its loop, the waiter closes [done], the first
    [Shutdown] returns. *)
Definition forced_exit : list Action := [R 0; R 0; R 5; R 5; R 3]%nat.


(** The forced shutdown with its first [Shutdown] returned and the second
    not yet begun. *)
Definition forced_returned : Sys :=
  the (play forced_cfg forced_clients (forced_drain ++ forced_exit)).

(** TestMetrics in small: a job that succeeds, a job that fails, a clean
    shutdown.  Threads: 0 the worker, 1 and 2 the submitters, 3 the
    caller of [Shutdown], 4 the waiter. *)
Definition clean_clients : list Thread :=
  [submit_call None job_ok; submit_call None job_fail; shutdown_call].

Definition clean_run : list Action :=
  [R 0; R 1; R 1; R 1; R 2; R 2; R 2;
   R 0; R 0; R 0; R 0; R 0;
   R 0; R 0; R 0; R 0; R 0;
   R 3; R 3; R 3; R 3;
   R 0; R 0; R 4; R 4; R 3]%nat.

(** The clean run at its end. *)
Definition clean_final : Sys := the (play forced_cfg clean_clients clean_run).

(** A [Submit] (thread 1) that has read the closed flag as 0 and counted
    itself, while [Shutdown] (thread 2) has stored the flag and closed the
    queue in between. *)
Definition racing_clients : list Thread := [submit_call None job_ok; shutdown_call].

Definition racing_pool : Sys :=
  the (play forced_cfg racing_clients [R 1; R 2; R 2; R 2; R 1]%nat).

(** A clean shutdown of an idle pool (thread 1), with a [Submit] (thread
    2) that has not begun; thread 3 is the waiter. *)
Definition shut_clients : list Thread := [shutdown_call; submit_call None job_ok].

Definition shut_pool : Sys :=
  the (play forced_cfg shut_clients
         [R 0; R 1; R 1; R 1; R 1; R 0; R 0; R 3; R 3; R 1]%nat).

(** A call of [Metrics] that loads Submitted before a [Submit] (thread 1)
    counts itself and loads Started after the worker has begun the job. *)
Definition torn_clients : list Thread := [submit_call None job_ok].

Definition torn_events : list Event :=
  [Load;
   Goroutine (R 1); Goroutine (R 1); Goroutine (R 1);
   Goroutine (R 0); Goroutine (R 0); Goroutine (R 0); Goroutine (R 0);
   Load; Load; Load; Load].

(** The pool when that call of [Metrics] returns. *)
Definition torn_pool : Sys :=
  the (play forced_cfg torn_clients [R 1; R 1; R 1; R 0; R 0; R 0; R 0]%nat).

(** * Properties *)

(** ** Construction *)

Section Construction.

Lemma withDefaults_spec (c : nat) (st : Store) (v : Config) :
  st !! c = Some v -> withDefaults c st = Ok (effective v, st).
Proof.
  intros Hc. unfold withDefaults, deref, effective. rewrite Hc. simpl.
  destruct v as [w q t l]; simpl.
  destruct (w <=? 0); simpl; destruct (t <=? 0); simpl; destruct l; reflexivity.
Qed.

Lemma start_workers_pool (l : list Z) (s : Sys) :
  pool (foldl start_worker s l) = with_wg (pool s) (wg (pool s) + Z.of_nat (length l))
  /\ doneCh (foldl start_worker s l) = doneCh s
  /\ threads (foldl start_worker s l) = threads s ++ ((fun i => TWorker i WInit) <$> l).
Proof.
  revert s. induction l as [|i l IH]; intros s; simpl.
  - rewrite Z.add_0_r, app_nil_r. destruct s as [[] ? ?]; auto.
  - destruct (IH (start_worker s i)) as (Hp & Hd & Ht).
    rewrite Hp, Hd, Ht. simpl. repeat split.
    + unfold with_wg; simpl. f_equal. lia.
    + rewrite <- app_assoc. reflexivity.
Qed.

Lemma New_spec (arg : Config) (st : Store) :
  0 <= QueueSize arg ->
  let c := effective arg in
  New arg st =
    Ok (mkSys (mkPool c (mkChan [] (QueueSize arg) false)
                 (Z.of_nat (Z.to_nat (Workers c))) (mkMetrics 0 0 0 0 0) None OnceFresh 0
                 [LPoolStarting (Workers c) (QueueSize c) (ShutdownTimeout c)])
              false
              ((fun i => TWorker i WInit) <$> seqZ 0 (Workers c)),
        st ++ [c]).
Proof.
  intros Hq c. unfold New.
  rewrite (withDefaults_spec _ _ arg) by apply list_lookup_middle, eq_refl.
  cbn [res_bind fst snd]. unfold deref.
  assert (Hins : <[length st := effective arg]> (st ++ [arg]) = st ++ [effective arg]).
  { rewrite insert_app_r_alt by lia. rewrite Nat.sub_diag. reflexivity. }
  rewrite Hins, list_lookup_middle by reflexivity. cbn [res_bind].
  unfold make_chan. change (QueueSize (effective arg)) with (QueueSize arg).
  destruct (Z.ltb_spec (QueueSize arg) 0) as [?|_]; [lia|]. cbn [res_bind].
  fold c.
  match goal with |- Ok (foldl start_worker ?s0 ?l, _) = _ =>
    destruct (start_workers_pool l s0) as (Hp & Hd & Ht);
    destruct (foldl start_worker s0 l) as [p d ts] end.
  simpl in *. subst p d ts. unfold with_wg; simpl.
  rewrite length_seqZ. reflexivity.
Qed.

Lemma New_Ok_queue (arg : Config) (st : Store) (r : Sys * Store) :
  New arg st = Ok r -> 0 <= QueueSize arg.
Proof.
  unfold New.
  rewrite (withDefaults_spec _ _ arg) by apply list_lookup_middle, eq_refl.
  cbn [res_bind fst snd]. unfold deref.
  rewrite insert_app_r_alt by lia. rewrite Nat.sub_diag. cbn [insert list_insert].
  rewrite list_lookup_middle by reflexivity. cbn [res_bind].
  unfold make_chan. change (QueueSize (effective arg)) with (QueueSize arg).
  destruct (Z.ltb_spec (QueueSize arg) 0); [discriminate | intros _; lia].
Qed.




(** C10: [withDefaults] writes nothing through its receiver, and [New]
    writes only to the cell of its own parameter: every variable that
    existed before the call, the caller's [Config] among them, holds the
    same value (all four fields) when [New] has returned. *)
Theorem New_keeps_caller_config (arg : Config) (st : Store) (s : Sys) (st' : Store) :
  New arg st = Ok (s, st') ->
  (forall (a : nat) (v : Config), st !! a = Some v -> st' !! a = Some v)
  /\ (forall (c : nat) (v : Config), st !! c = Some v ->
        exists out, withDefaults c st = Ok (out, st)).
Proof.
  intros HN. pose proof (New_Ok_queue _ _ _ HN) as Hq.
  rewrite (New_spec arg st Hq) in HN. injection HN as _ <-. split.
  - intros a v Ha. apply lookup_app_l_Some, Ha.
  - intros c v Hc. eexists. apply withDefaults_spec, Hc.
Qed.

Lemma New_keeps_caller_config_witness :
  let caller := mkConfig 0 3 0 None in
  exists s st', New caller [caller] = Ok (s, st') /\ st' !! 0%nat = Some caller.
Proof.
  intros caller.
  assert (Hq : 0 <= QueueSize caller) by (simpl; lia).
  pose proof (New_spec caller [caller] Hq) as H. cbv zeta in H.
  eexists _, _. split; [exact H|].
  apply (proj1 (New_keeps_caller_config caller [caller] _ _ H) 0%nat caller).
  reflexivity.
Defined.

End Construction.

(** ** Single steps of a goroutine *)

Section Steps.

Lemma step_Run (s : Sys) (i : nat) (c : SelCase) (t : Thread) :
  threads s !! i = Some t ->
  step (Run i c) s =
    match tstep c t (pool s) (doneCh s) with
    | Some (t', p', d', forked) =>
        Some (mkSys p' d' (<[i := t']> (threads s) ++ forked))
    | None => None
    end.
Proof.
  intros H. unfold step. rewrite H. cbn [mbind option_bind].
  destruct (tstep c t (pool s) (doneCh s)) as [[[[? ?] ?] ?]|]; reflexivity.
Qed.


Lemma finished_no_step (s : Sys) (i : nat) (t : Thread) :
  threads s !! i = Some t -> finished t = true ->
  (forall c, step (Run i c) s = None) /\ (forall w, step (Handoff i w) s = None).
Proof.
  intros H Hf. split.
  - intros c. rewrite (step_Run _ _ _ _ H).
    destruct t as [id []|ctx job []|[]|[]]; try discriminate Hf; reflexivity.
  - intros w. unfold step. rewrite H.
    destruct t as [id []|ctx job []|[]|[]]; try discriminate Hf; reflexivity.
Qed.

Lemma exec_app (tr1 tr2 : list Action) (s : Sys) :
  exec (tr1 ++ tr2) s = exec tr1 s ≫= exec tr2.
Proof.
  revert s. induction tr1 as [|a tr1 IH]; intros s; cbn [exec app]; [reflexivity|].
  destruct (step a s) as [s1|]; cbn; [apply IH | reflexivity].
Defined.

Lemma AddInt64_succ (x : Z) : 0 <= x < MaxInt64 -> AddInt64 x 1 = x + 1.
Proof.
  unfold AddInt64, wrap64, MaxInt64. intros H. rewrite Z.mod_small by lia. lia.
Qed.

End Steps.

(** Runs one scheduled operation of thread [i] in the goal. *)
Ltac run_thread H :=
  rewrite (step_Run _ _ _ _ H); cbn [tstep submit_step worker_step shutdown_step
    waiter_step out mbind option_bind].

(** ** Submit *)

Section SubmitCalls.

Variables (s : Sys) (i : nat) (ctx : Context) (job : Job).

(** The two operations of a [Submit] that finds the pool closed. *)
Lemma Submit_closed_run (c1 c2 : SelCase) :
  threads s !! i = Some (TSubmit ctx job SEntry) ->
  closed (pool s) = 1 ->
  exec [Run i c1; Run i c2] s =
    Some (mkSys (with_metrics (pool s) (inc_Dropped (metrics (pool s)))) (doneCh s)
            (<[i := TSubmit ctx job (SReturn (Some ErrPoolClosed))]> (threads s))).
Proof.
  intros Hi Hc. cbn [exec]. run_thread Hi. rewrite Hc. cbn.
  rewrite app_nil_r, list_lookup_insert_eq by (eapply lookup_lt_Some, Hi). cbn.
  rewrite !app_nil_r, list_insert_insert_eq. reflexivity.
Qed.

(** C4: a [Submit] that reads the closed flag as set returns
    [ErrPoolClosed] without ever blocking, adds exactly one to Dropped,
    leaves the queue and every other goroutine as they were, and has no
    operation left with which its job could reach the queue or a worker. *)
Theorem Submit_after_Shutdown_rejected (c1 c2 : SelCase) :
  threads s !! i = Some (TSubmit ctx job SEntry) ->
  closed (pool s) = 1 ->
  exists s',
    exec [Run i c1; Run i c2] s = Some s'
    /\ threads s' !! i = Some (TSubmit ctx job (SReturn (Some ErrPoolClosed)))
    /\ Dropped (metrics (pool s')) = AddInt64 (Dropped (metrics (pool s))) 1
    /\ (0 <= Dropped (metrics (pool s)) < MaxInt64 ->
        Dropped (metrics (pool s')) = Dropped (metrics (pool s)) + 1)
    /\ jobs (pool s') = jobs (pool s)
    /\ (forall k, k <> i -> threads s' !! k = threads s !! k)
    /\ (forall c, step (Run i c) s' = None)
    /\ (forall w, step (Handoff i w) s' = None).
Proof.
  intros Hi Hc.
  set (s' := mkSys (with_metrics (pool s) (inc_Dropped (metrics (pool s)))) (doneCh s)
               (<[i := TSubmit ctx job (SReturn (Some ErrPoolClosed))]> (threads s))).
  assert (Hl : threads s' !! i = Some (TSubmit ctx job (SReturn (Some ErrPoolClosed)))).
  { apply list_lookup_insert_eq. eapply lookup_lt_Some, Hi. }
  exists s'. split; [apply (Submit_closed_run c1 c2 Hi Hc)|].
  split; [exact Hl|]. split; [reflexivity|]. split; [apply AddInt64_succ|].
  split; [reflexivity|]. split.
  - intros k Hk. apply list_lookup_insert_ne. congruence.
  - apply (finished_no_step s' i _ Hl eq_refl).
Qed.

(** C8: such a rejected [Submit] changes the pool in the Dropped counter
    only: Submitted, Started, Succeeded and Failed keep their values. *)
Theorem Submit_rejected_touches_only_Dropped (c1 c2 : SelCase) :
  threads s !! i = Some (TSubmit ctx job SEntry) ->
  closed (pool s) = 1 ->
  exists s',
    exec [Run i c1; Run i c2] s = Some s'
    /\ Submitted (metrics (pool s')) = Submitted (metrics (pool s))
    /\ Started (metrics (pool s')) = Started (metrics (pool s))
    /\ Succeeded (metrics (pool s')) = Succeeded (metrics (pool s))
    /\ Failed (metrics (pool s')) = Failed (metrics (pool s))
    /\ pool s' = with_metrics (pool s) (inc_Dropped (metrics (pool s)))
    /\ doneCh s' = doneCh s.
Proof.
  intros Hi Hc. eexists. split; [apply (Submit_closed_run c1 c2 Hi Hc)|].
  repeat split.
Qed.

End SubmitCalls.

Section SubmitCancelled.

Variables (s : Sys) (i : nat) (ctx : Context) (job : Job) (rsn : CtxReason).

Hypothesis Hi : threads s !! i = Some (TSubmit ctx job SEntry).
Hypothesis Hopen : closed (pool s) <> 1.
Hypothesis Hfull : send_ready s = false.

Lemma Submit_reaches_select (c1 c2 : SelCase) :
  exec ([Run i c1; Run i c2] ++ ctx_ends i ctx rsn) s
  = Some (at_select s i job (Some (ctx_reason ctx rsn))).
Proof.
  assert (Hlt : (i < length (threads s))%nat) by (eapply lookup_lt_Some, Hi).
  cbn [exec app]. run_thread Hi.
  destruct (Z.eqb_spec (closed (pool s)) 1) as [?|_]; [contradiction|].
  cbn. rewrite app_nil_r, list_lookup_insert_eq by exact Hlt. cbn.
  rewrite !app_nil_r, list_insert_insert_eq.
  unfold ctx_ends, ctx_reason, at_select. cbn [default].
  destruct ctx as [r|]; cbn; [reflexivity|].
  rewrite list_lookup_insert_eq by exact Hlt. cbn.
  rewrite list_insert_insert_eq. reflexivity.
Qed.

Lemma select_send_blocked (c : Context) :
  step (Run i Case1) (at_select s i job c) = None
  /\ forall w, step (Handoff i w) (at_select s i job c) = None.
Proof.
  assert (Hlt : (i < length (threads s))%nat) by (eapply lookup_lt_Some, Hi).
  unfold send_ready in Hfull.
  apply orb_false_iff in Hfull as [Hfull Hrecv].
  apply orb_false_iff in Hfull as [Hcl Hroom].
  assert (Hsel : threads (at_select s i job c) !! i = Some (TSubmit c job SSelect))
    by (apply list_lookup_insert_eq, Hlt).
  split.
  - run_thread Hsel. cbn. rewrite Hcl, Hroom. reflexivity.
  - intros w. unfold step. rewrite Hsel.
    destruct (decide (w = i)) as [->|Hne]; [rewrite Hsel; reflexivity|].
    cbn [at_select threads pool with_metrics jobs].
    rewrite list_lookup_insert_ne by congruence.
    destruct (threads s !! w) as [[id []| | |]|] eqn:Hw; try reflexivity.
    destruct (buf (jobs (pool s))); [|reflexivity].
    rewrite Hcl. exfalso.
    apply not_true_iff_false in Hrecv. apply Hrecv, existsb_exists.
    exists (TWorker id WRange). split; [|reflexivity].
    apply list_elem_of_In, list_elem_of_lookup_2 with w, Hw.
Qed.

(** C5: on an open pool whose queue cannot take the job, a [Submit]
    whose context is done (at the call, or while it waits) has added one
    to Submitted, can proceed only through the context case of its
    select, adds one to Dropped and returns "submit cancelled: " wrapping
    [ctx.Err()]; the queue and the other goroutines are untouched and
    the call has no operation left. *)
Theorem Submit_cancelled_while_blocked (c1 c2 c3 : SelCase) :
  exists s2 s',
    exec ([Run i c1; Run i c2] ++ ctx_ends i ctx rsn) s = Some s2
    /\ threads s2 !! i = Some (TSubmit (Some (ctx_reason ctx rsn)) job SSelect)
    /\ metrics (pool s2) = inc_Submitted (metrics (pool s))
    /\ step (Run i Case1) s2 = None
    /\ (forall w, step (Handoff i w) s2 = None)
    /\ exec [Run i Case2; Run i c3] s2 = Some s'
    /\ threads s' !! i
       = Some (TSubmit (Some (ctx_reason ctx rsn)) job
                 (SReturn (Some (cancelled_submit (ctx_reason ctx rsn)))))
    /\ errors_Is (cancelled_submit (ctx_reason ctx rsn)) (reason_err (ctx_reason ctx rsn))
       = true
    /\ metrics (pool s') = inc_Dropped (inc_Submitted (metrics (pool s)))
    /\ jobs (pool s') = jobs (pool s)
    /\ (forall k, k <> i -> threads s' !! k = threads s !! k)
    /\ (forall c, step (Run i c) s' = None)
    /\ (forall w, step (Handoff i w) s' = None).
Proof.
  assert (Hlt : (i < length (threads s))%nat) by (eapply lookup_lt_Some, Hi).
  set (s2 := at_select s i job (Some (ctx_reason ctx rsn))).
  set (ret := TSubmit (Some (ctx_reason ctx rsn)) job
                (SReturn (Some (cancelled_submit (ctx_reason ctx rsn))))).
  set (s' := mkSys (with_metrics (pool s2) (inc_Dropped (metrics (pool s2)))) (doneCh s)
               (<[i := ret]> (threads s))).
  assert (Hsel : threads s2 !! i = Some (TSubmit (Some (ctx_reason ctx rsn)) job SSelect))
    by (apply list_lookup_insert_eq, Hlt).
  assert (Hret : threads s' !! i = Some ret) by (apply list_lookup_insert_eq, Hlt).
  exists s2, s'.
  split; [apply Submit_reaches_select|]. split; [exact Hsel|]. split; [reflexivity|].
  split; [apply select_send_blocked|]. split; [apply select_send_blocked|].
  split.
  { cbn [exec]. run_thread Hsel. cbn.
    rewrite app_nil_r, list_lookup_insert_eq by (rewrite length_insert; exact Hlt). cbn.
    rewrite !app_nil_r, !list_insert_insert_eq. reflexivity. }
  split; [exact Hret|]. split.
  { unfold cancelled_submit. destruct (ctx_reason ctx rsn); reflexivity. }
  split; [reflexivity|]. split; [reflexivity|]. split.
  - intros k Hk. apply list_lookup_insert_ne. congruence.
  - apply (finished_no_step s' i _ Hret eq_refl).
Qed.

End SubmitCancelled.

Lemma Submit_cancelled_while_blocked_witness :
  exists s',
    exec [Run 2 Case1; Run 2 Case1; CtxDone 2 ByDeadline; Run 2 Case2; Run 2 Case1]
      busy_pool = Some s'
    /\ threads s' !! 2%nat
       = Some (TSubmit (Some ByDeadline) job_ok
                 (SReturn (Some (Errorf_w "submit cancelled: " DeadlineExceeded))))
    /\ metrics (pool s') = mkMetrics 2 1 0 0 1.
Proof.
  assert (Hopen : closed (pool busy_pool) <> 1) by (vm_compute; discriminate).
  destruct (Submit_cancelled_while_blocked busy_pool 2 None job_ok ByDeadline
              eq_refl Hopen eq_refl Case1 Case1 Case1)
    as (s2 & s' & H1 & _ & _ & _ & _ & H2 & Ht & _ & Hm & _).
  exists s'. split; [|split; [exact Ht | rewrite Hm; reflexivity]].
  change (exec (([Run 2 Case1; Run 2 Case1] ++ [CtxDone 2 ByDeadline])
                 ++ [Run 2 Case2; Run 2 Case1])%nat busy_pool = Some s').
  rewrite exec_app. unfold ctx_ends in H1. rewrite H1. exact H2.
Defined.

Lemma Submit_after_Shutdown_rejected_witness :
  exists s',
    exec [Run 2 Case1; Run 2 Case1] closed_pool = Some s'
    /\ threads s' !! 2%nat = Some (TSubmit None job_ok (SReturn (Some ErrPoolClosed)))
    /\ Dropped (metrics (pool s')) = 1.
Proof.
  destruct (Submit_after_Shutdown_rejected closed_pool 2 None job_ok Case1 Case1)
    as (s' & He & Ht & Hd & _); [reflexivity | reflexivity |].
  exists s'. repeat split; [exact He | exact Ht | rewrite Hd; reflexivity].
Defined.

Lemma Submit_rejected_touches_only_Dropped_witness :
  exists s',
    exec [Run 2 Case1; Run 2 Case2] closed_pool = Some s'
    /\ Submitted (metrics (pool s')) = 0
    /\ Started (metrics (pool s')) = 0.
Proof.
  destruct (Submit_rejected_touches_only_Dropped closed_pool 2 None job_ok Case1 Case2)
    as (s' & He & H1 & H2 & _); [reflexivity | reflexivity |].
  exists s'. repeat split; [exact He | rewrite H1; reflexivity | rewrite H2; reflexivity].
Defined.

(** ** runWorker *)

Section WorkerJob.

Variables (id : Z) (job : Job).





End WorkerJob.


(** ** Forced shutdown, run on the code *)

(** C2 as stated fails: after a forced shutdown the skipped job has been
    counted in Failed but not in Started, so Succeeded + Failed exceeds
    Started, and still does once the pool is quiescent. *)
Lemma skipped_job_counted_Failed_not_Started :
  exists s s',
    play forced_cfg forced_clients forced_drain = Some s
    /\ metrics (pool s) = mkMetrics 2 1 0 2 0
    /\ ~ (Succeeded (metrics (pool s)) + Failed (metrics (pool s))
          <= Started (metrics (pool s)))
    /\ exec forced_exit s = Some s'
    /\ quiescent s' = true
    /\ crashed s' = false
    /\ Started (metrics (pool s')) = 1
    /\ Succeeded (metrics (pool s')) + Failed (metrics (pool s')) = 2.
Proof.
  eexists _, _. split; [vm_compute; reflexivity|].
  split; [reflexivity|]. split; [cbn; lia|].
  split; [vm_compute; reflexivity|]. repeat split.
Qed.

(** A call of [Shutdown] that finds [once] done does nothing and returns
    nil, whatever the first call returned. *)
Lemma Shutdown_again_returns_nil (s : Sys) (i : nat) (c : SelCase) :
  threads s !! i = Some (TShutdown ShEntry) ->
  once (pool s) = OnceDone ->
  step (Run i c) s
    = Some (mkSys (pool s) (doneCh s) (<[i := TShutdown (ShReturn None)]> (threads s))).
Proof.
  intros Hi Ho. run_thread Hi. rewrite Ho. cbn. rewrite app_nil_r. reflexivity.
Qed.

(** C1 as stated fails: after a forced shutdown the first [Shutdown] has
    returned [ErrShutdownTimeout] and the second, called after it, nil. *)
Lemma second_Shutdown_forgets_timeout :
  exists s r1 r2,
    play forced_cfg forced_clients (forced_drain ++ forced_exit ++ [R 4]) = Some s
    /\ threads s !! 3%nat = Some (TShutdown (ShReturn r1))
    /\ threads s !! 4%nat = Some (TShutdown (ShReturn r2))
    /\ r1 = Some ErrShutdownTimeout
    /\ r2 = None
    /\ r1 <> r2
    /\ crashed s = false.
Proof.
  eexists _, _, _. split; [vm_compute; reflexivity|].
  split; [reflexivity|]. split; [reflexivity|]. repeat split. discriminate.
Qed.

(** ** Counting goroutines *)

Section Counting.

Variable P : Thread -> bool.

Lemma count_nonneg (l : list Thread) : 0 <= count P l.
Proof. induction l as [|t l IH]; cbn [count]; [lia | destruct (P t); lia]. Qed.

Lemma count_app (l1 l2 : list Thread) : count P (l1 ++ l2) = count P l1 + count P l2.
Proof. induction l1 as [|t l1 IH]; cbn [count app]; [lia | rewrite IH; lia]. Qed.

Lemma count_insert (l : list Thread) (i : nat) (t t' : Thread) :
  l !! i = Some t ->
  count P (<[i := t']> l)
  = count P l - (if P t then 1 else 0) + (if P t' then 1 else 0).
Proof.
  revert i. induction l as [|x l IH]; intros [|i] H; try discriminate H.
  - injection H as ->. change (<[0%nat := t']> (t :: l)) with (t' :: l).
    cbn [count]. destruct (P t), (P t'); lia.
  - change (<[S i := t']> (x :: l)) with (x :: <[i := t']> l).
    cbn [count]. rewrite (IH i H). lia.
Qed.

Lemma count_lookup (l : list Thread) (i : nat) (t : Thread) :
  l !! i = Some t -> P t = true -> 1 <= count P l.
Proof.
  revert i. induction l as [|x l IH]; intros [|i] H Ht; try discriminate H.
  - injection H as ->. cbn [count]. rewrite Ht. pose proof (count_nonneg l). lia.
  - cbn [count]. specialize (IH i H Ht). destruct (P x); lia.
Qed.

Lemma count_two (l : list Thread) (i j : nat) (a b : Thread) :
  i <> j -> l !! i = Some a -> l !! j = Some b -> P a = true -> P b = true ->
  2 <= count P l.
Proof.
  intros Hne Hi Hj Ha Hb. revert i j Hne Hi Hj.
  induction l as [|x l IH]; intros [|i] [|j] Hne Hi Hj; try discriminate Hi;
    try congruence; cbn [count].
  - injection Hi as ->. pose proof (count_lookup l j b Hj Hb). rewrite Ha. lia.
  - injection Hj as ->. pose proof (count_lookup l i a Hi Ha). rewrite Hb. lia.
  - assert (i <> j) by congruence. specialize (IH i j H Hi Hj). destruct (P x); lia.
Qed.

Lemma count_zero (l : list Thread) (i : nat) (t : Thread) :
  count P l = 0 -> l !! i = Some t -> P t = false.
Proof.
  intros H0 Hi. destruct (P t) eqn:Ht; [|reflexivity].
  pose proof (count_lookup l i t Hi Ht). lia.
Qed.

Lemma count_pos (l : list Thread) :
  0 < count P l -> exists i t, l !! i = Some t /\ P t = true.
Proof.
  induction l as [|x l IH]; cbn [count]; [lia|]. intros H.
  destruct (P x) eqn:Hx.
  - exists 0%nat, x. split; [reflexivity | exact Hx].
  - destruct IH as (i & t & Hi & Ht); [lia|]. exists (S i), t. split; assumption.
Qed.

Lemma count_none (l : list Thread) :
  Forall (fun t => P t = false) l -> count P l = 0.
Proof.
  induction 1 as [|t l Ht _ IH]; cbn [count]; [reflexivity | rewrite Ht, IH; reflexivity].
Qed.

Lemma count_all (l : list Thread) :
  Forall (fun t => P t = true) l -> count P l = Z.of_nat (length l).
Proof.
  induction 1 as [|t l Ht _ IH]; cbn [count length]; [reflexivity | rewrite Ht, IH; lia].
Qed.

End Counting.

(** ** Invariants of the shutdown protocol *)

Lemma count_lookup_le (P : Thread -> bool) (l : list Thread) (i : nat) (t : Thread) :
  l !! i = Some t -> (if P t then 1 else 0) <= count P l.
Proof.
  intros Hi. destruct (P t) eqn:Ht; [apply (count_lookup P l i t Hi Ht) | apply count_nonneg].
Qed.

Ltac count_facts l i t Hi :=
  pose proof (count_lookup_le sh_deciding l i t Hi);
  pose proof (count_lookup_le sh_forced l i t Hi);
  pose proof (count_lookup_le sh_timed_out l i t Hi);
  pose proof (count_lookup_le w_live l i t Hi);
  pose proof (count_lookup_le wt_released l i t Hi);
  pose proof (count_lookup_le sh_other_error l i t Hi);
  pose proof (count_lookup_le sh_returned l i t Hi).

Ltac inv_case Hi :=
  constructor; cbn [pool doneCh threads];
  rewrite ?count_app, ?(count_insert _ _ _ _ _ Hi);
  cbn in *; try lia; try tauto; try congruence;
  unfold cancelWorkers, running, completed, cancelled in *;
  repeat case_match; simplify_eq; cbn in *; try lia; try tauto; try congruence;
  try (intuition lia).

Lemma tstep_Inv (p : Pool) (d : bool) (l : list Thread) (i : nat) (c : SelCase)
    (t t' : Thread) (p' : Pool) (d' : bool) (forked : list Thread) :
  Inv (mkSys p d l) -> l !! i = Some t ->
  tstep c t p d = Some (t', p', d', forked) ->
  Inv (mkSys p' d' (<[i := t']> l ++ forked)).
Proof.
  intros [H1 H2 H3 H4 H5 H6 H7 H8 H9] Hi Ht. cbn [pool doneCh threads] in *.
  count_facts l i t Hi.
  destruct t as [id pc|ctx job pc|pc|pc]; destruct pc; cbn in Ht; unfold out in Ht;
    repeat case_match; simplify_eq; inv_case Hi.
Qed.

Lemma step_Inv (a : Action) (s s' : Sys) : Inv s -> step a s = Some s' -> Inv s'.
Proof.
  destruct s as [p d l]. intros HI Hs. destruct a as [i c|i w|i r];
    cbn [step pool doneCh threads] in Hs.
  - destruct (l !! i) as [t|] eqn:Hi; [|discriminate Hs]. cbn in Hs.
    destruct (tstep c t p d) as [[[[t' p'] d'] forked]|] eqn:Ht; [|discriminate Hs].
    injection Hs as <-. eapply tstep_Inv; eassumption.
  - destruct (l !! i) as [[| ctx job [] | |]|] eqn:Hi; try discriminate Hs.
    destruct (l !! w) as [[id [] | | |]|] eqn:Hw; try discriminate Hs.
    destruct (buf (jobs p)); [|discriminate Hs].
    destruct (ch_closed (jobs p)); [discriminate Hs|]. injection Hs as <-.
    assert (Hne : i <> w) by congruence.
    assert (Hw' : <[i := TSubmit ctx job (SReturn None)]> l !! w = Some (TWorker id WRange))
      by (rewrite list_lookup_insert_ne by exact Hne; exact Hw).
    destruct HI as [H1 H2 H3 H4 H5 H6 H7 H8 H9]. cbn [pool doneCh threads] in *.
    constructor; cbn [pool doneCh threads];
      rewrite ?(count_insert _ _ _ _ _ Hw'), ?(count_insert _ _ _ _ _ Hi); cbn; try lia;
      try assumption; try (intros H; apply H5; lia); try (intros H; apply H9; lia).
  - destruct (l !! i) as [[| [|] job pc | |]|] eqn:Hi; try discriminate Hs.
    injection Hs as <-.
    destruct HI as [H1 H2 H3 H4 H5 H6 H7 H8 H9]. cbn [pool doneCh threads] in *.
    constructor; cbn [pool doneCh threads];
      rewrite ?(count_insert _ _ _ _ _ Hi); cbn; try lia; try assumption;
      try (intros H; apply H5; lia); try (intros H; apply H9; lia).
Qed.

Lemma exec_Inv (tr : list Action) (s s' : Sys) : Inv s -> exec tr s = Some s' -> Inv s'.
Proof.
  revert s. induction tr as [|a tr IH]; intros s HI He; cbn [exec] in He.
  - injection He as <-. exact HI.
  - destruct (step a s) as [s1|] eqn:Hs; [|discriminate He]. cbn in He.
    eapply IH; [eapply step_Inv; eassumption | exact He].
Qed.

Lemma New_Inv (c : Config) (st st' : Store) (s0 : Sys) (clients : list Thread) :
  New c st = Ok (s0, st') ->
  Forall (fun t => at_entry t = true) clients ->
  Inv (go s0 clients).
Proof.
  intros HN Hcl. pose proof (New_Ok_queue _ _ _ HN) as Hq.
  rewrite (New_spec c st Hq) in HN. injection HN as <- _.
  set (ws := (fun i => TWorker i WInit) <$> seqZ 0 (Workers (effective c))).
  assert (Hcount : forall P, (forall t, at_entry t = true -> P t = false) ->
                     (forall i, P (TWorker i WInit) = false) ->
                     count P (ws ++ clients) = 0).
  { intros P HP HW. rewrite count_app, !count_none; [reflexivity| |].
    - eapply Forall_impl; [exact Hcl | exact HP].
    - apply Forall_fmap, Forall_forall. intros i _. apply HW. }
  constructor; cbn [go pool doneCh threads once workerCtx wg]; fold ws.
  - rewrite !Hcount; [reflexivity| | | |]; try (intros [? []|? ? []|[]|[]]; done); done.
  - rewrite !Hcount; [reflexivity| | | |]; try (intros [? []|? ? []|[]|[]]; done); done.
  - rewrite !Hcount; [cbn; lia| |]; try (intros [? []|? ? []|[]|[]]; done); done.
  - rewrite count_app, (count_none w_live clients), count_all.
    + unfold ws. rewrite length_fmap, length_seqZ. lia.
    + apply Forall_fmap, Forall_forall. intros i _. reflexivity.
    + eapply Forall_impl; [exact Hcl|]. intros [? []|? ? []|[]|[]]; done.
  - rewrite !Hcount; [lia| |]; try (intros [? []|? ? []|[]|[]]; done); done.
  - discriminate.
  - left. reflexivity.
  - rewrite !Hcount; [lia| |]; try (intros [? []|? ? []|[]|[]]; done); done.
  - rewrite !Hcount; [lia| |]; try (intros [? []|? ? []|[]|[]]; done); done.
Qed.

Lemma reachable_Inv (s : Sys) : reachable s -> Inv s.
Proof.
  intros (c & st & st' & s0 & clients & tr & HN & Hcl & He).
  eapply exec_Inv; [eapply New_Inv; eassumption | exact He].
Qed.


(** ** Shutdown *)

Section ShutdownCall.

Variable s : Sys.
Hypothesis Hreach : reachable s.

Lemma workers_exited : wg (pool s) = 0 ->
  forall j id wpc, threads s !! j = Some (TWorker id wpc) -> wpc = WDone.
Proof.
  intros H0 j id wpc Hj. destruct (reachable_Inv s Hreach) as [_ _ _ H4 _ _ _ _ _].
  rewrite H0 in H4. symmetry in H4.
  pose proof (count_zero w_live _ j _ H4 Hj) as Hl. destruct wpc; try discriminate Hl.
  reflexivity.
Qed.



Lemma timeout_path_unique (j k : nat) (tj tk : Thread) :
  j <> k -> threads s !! j = Some tj -> threads s !! k = Some tk ->
  on_timeout_path tj = true -> on_timeout_path tk = false.
Proof.
  intros Hne Hj Hk Htj. destruct (on_timeout_path tk) eqn:Htk; [exfalso|reflexivity].
  destruct (reachable_Inv s Hreach) as [H1 H2 H3 _ _ _ _ _ _].
  pose proof (count_nonneg sh_deciding (threads s)).
  pose proof (count_nonneg sh_forced (threads s)).
  pose proof (count_nonneg sh_timed_out (threads s)).
  pose proof (count_two sh_deciding _ j k tj tk Hne Hj Hk) as D2.
  pose proof (count_two sh_forced _ j k tj tk Hne Hj Hk) as F2.
  pose proof (count_two sh_timed_out _ j k tj tk Hne Hj Hk) as T2.
  pose proof (count_lookup sh_deciding _ j tj Hj) as Dj.
  pose proof (count_lookup sh_forced _ j tj Hj) as Fj.
  pose proof (count_lookup sh_timed_out _ j tj Hj) as Tj.
  pose proof (count_lookup sh_deciding _ k tk Hk) as Dk.
  pose proof (count_lookup sh_forced _ k tk Hk) as Fk.
  pose proof (count_lookup sh_timed_out _ k tk Hk) as Tk.
  unfold running, completed in *.
  destruct tj as [| |[| | | | | | |[e|]|]|]; try discriminate Htj;
    destruct tk as [| |[| | | | | | |[e'|]|]|]; try discriminate Htk;
    cbn in *; destruct (once (pool s)); intuition lia.
Qed.


End ShutdownCall.



(** ** What Submit returns *)

Lemma tstep_results (c : SelCase) (t t' : Thread) (p p' : Pool) (d d' : bool)
    (forked : list Thread) :
  tstep c t p d = Some (t', p', d', forked) ->
  submit_result_ok t -> submit_result_ok t' /\ Forall submit_result_ok forked.
Proof.
  intros Ht Hok.
  destruct t as [id pc|ctx job pc|pc|pc]; destruct pc; cbn in Ht; unfold out in Ht;
    repeat case_match; simplify_eq; cbn; auto.
  - (* Dropped++ after the context case *)
    split; [|constructor]. right. right.
    destruct ctx as [rsn|]; [|discriminate]. exists rsn.
    cbn in *. simplify_eq. split; reflexivity.
Qed.

Lemma step_results (a : Action) (s s' : Sys) :
  Forall submit_result_ok (threads s) -> step a s = Some s' ->
  Forall submit_result_ok (threads s').
Proof.
  destruct s as [p d l]. intros Hall Hs.
  destruct a as [i c|i w|i r]; cbn [step pool doneCh threads] in Hs.
  - destruct (l !! i) as [t|] eqn:Hi; [|discriminate Hs]. cbn in Hs.
    destruct (tstep c t p d) as [[[[t' p'] d'] forked]|] eqn:Ht; [|discriminate Hs].
    injection Hs as <-. cbn [threads] in *.
    destruct (tstep_results _ _ _ _ _ _ _ _ Ht (Forall_lookup_1 _ _ _ _ Hall Hi))
      as [Hok Hfork].
    apply Forall_app. split; [apply Forall_insert; assumption | exact Hfork].
  - destruct (l !! i) as [[| ctx job [] | |]|] eqn:Hi; try discriminate Hs.
    destruct (l !! w) as [[id [] | | |]|] eqn:Hw; try discriminate Hs.
    destruct (buf (jobs p)); [|discriminate Hs].
    destruct (ch_closed (jobs p)); [discriminate Hs|]. injection Hs as <-.
    cbn [threads] in *. apply Forall_insert; [apply Forall_insert|]; cbn; auto.
  - destruct (l !! i) as [[| [|] job pc | |]|] eqn:Hi; try discriminate Hs.
    injection Hs as <-. cbn [threads] in *. apply Forall_insert; [exact Hall|].
    pose proof (Forall_lookup_1 _ _ _ _ Hall Hi) as Hok.
    destruct pc; cbn in *; auto.
    destruct Hok as [?|[?|(rsn & Hc & _)]]; [auto | auto | discriminate Hc].
Qed.

Lemma reachable_results (s : Sys) : reachable s -> Forall submit_result_ok (threads s).
Proof.
  intros (c & st & st' & s0 & clients & tr & HN & Hcl & He).
  assert (H0 : Forall submit_result_ok (threads (go s0 clients))).
  { pose proof (New_Ok_queue _ _ _ HN) as Hq.
    rewrite (New_spec c st Hq) in HN. injection HN as <- _. cbn [go threads].
    apply Forall_app. split.
    - apply Forall_fmap, Forall_forall. intros ? _. exact I.
    - eapply Forall_impl; [exact Hcl|]. intros [? []|? ? []|[]|[]]; done. }
  clear HN Hcl. revert H0 He. generalize (go s0 clients). clear s0.
  induction tr as [|a tr IH]; intros s1 H0 He; cbn [exec] in He.
  - injection He as <-. exact H0.
  - destruct (step a s1) as [s2|] eqn:Hs; [|discriminate He]. cbn in He.
    eapply IH; [eapply step_results; eassumption | exact He].
Qed.

Lemma play_reachable (c : Config) (clients : list Thread) (tr : list Action) (s : Sys) :
  Forall (fun t => at_entry t = true) clients ->
  play c clients tr = Some s -> reachable s.
Proof.
  unfold play, boot. intros Hcl Hp.
  destruct (New c []) as [[s0 st']|] eqn:HN; [|discriminate Hp]. cbn in Hp.
  exists c, [], st', s0, clients, tr. auto.
Qed.

(** C9: in every state of a pool, a [Submit] that has returned has
    returned nil, [ErrPoolClosed], or "submit cancelled: " wrapping the
    [Err()] of its caller's context; each of the three does occur.  The
    last is not one of the package's two sentinels and not the context's
    error itself; [errors.Is] finds the context's error inside it. *)
Theorem Submit_results :
  (forall (s : Sys) (i : nat) (ctx : Context) (job : Job) (r : option error),
     reachable s ->
     threads s !! i = Some (TSubmit ctx job (SReturn r)) ->
     r = None
     \/ r = Some ErrPoolClosed
     \/ exists rsn, ctx = Some rsn /\ r = Some (cancelled_submit rsn))
  /\ (forall rsn : CtxReason,
        errors_Is (cancelled_submit rsn) (reason_err rsn) = true
        /\ errors_Is (cancelled_submit rsn) ErrPoolClosed = false
        /\ errors_Is (cancelled_submit rsn) ErrShutdownTimeout = false
        /\ cancelled_submit rsn <> reason_err rsn
        /\ cancelled_submit rsn <> ErrPoolClosed
        /\ cancelled_submit rsn <> ErrShutdownTimeout)
  /\ (exists s i ctx job,
        reachable s /\ threads s !! i = Some (TSubmit ctx job (SReturn None)))
  /\ (exists s i ctx job,
        reachable s
        /\ threads s !! i = Some (TSubmit ctx job (SReturn (Some ErrPoolClosed))))
  /\ (exists s i rsn job,
        reachable s
        /\ threads s !! i
           = Some (TSubmit (Some rsn) job (SReturn (Some (cancelled_submit rsn))))).
Proof.
  split; [|split; [|split; [|split]]].
  - intros s i ctx job r Hr Hi.
    exact (Forall_lookup_1 _ _ _ _ (reachable_results s Hr) Hi).
  - intros []; repeat split; discriminate.
  - exists received_pool, 1%nat, None, job_fail. split; [|reflexivity].
    apply (play_reachable (mkConfig 1 0 Second None) [submit_call None job_fail]
             [Run 0 Case1; Run 1 Case1; Run 1 Case1; Handoff 1 0]%nat);
      [repeat constructor | vm_compute; reflexivity].
  - exists (the (exec [Run 2 Case1; Run 2 Case1] closed_pool)), 2%nat, None, job_ok.
    split; [|reflexivity].
    apply (play_reachable (mkConfig 1 0 Second None)
             [shutdown_call; submit_call None job_ok]
             [Run 0 Case1; Run 1 Case1; Run 1 Case1; Run 2 Case1; Run 2 Case1]%nat);
      [repeat constructor | vm_compute; reflexivity].
  - exists (the (exec [Run 2 Case1; Run 2 Case1; CtxDone 2 ByDeadline; Run 2 Case2;
                       Run 2 Case1] busy_pool)), 2%nat, ByDeadline, job_ok.
    split; [|reflexivity].
    apply (play_reachable (mkConfig 1 0 Second None)
             [submit_call None job_until_cancelled; submit_call None job_ok]
             [Run 0 Case1; Run 1 Case1; Run 1 Case1; Handoff 1 0; Run 0 Case1;
              Run 0 Case1; Run 2 Case1; Run 2 Case1; CtxDone 2 ByDeadline;
              Run 2 Case2; Run 2 Case1]%nat);
      [repeat constructor | vm_compute; reflexivity].
Qed.

Lemma Submit_results_witness :
  Some (cancelled_submit ByDeadline) = None
  \/ Some (cancelled_submit ByDeadline) = Some ErrPoolClosed
  \/ exists rsn, Some ByDeadline = Some rsn
                 /\ Some (cancelled_submit ByDeadline) = Some (cancelled_submit rsn).
Proof.
  set (s := the (exec [Run 2 Case1; Run 2 Case1; CtxDone 2 ByDeadline; Run 2 Case2;
                       Run 2 Case1]%nat busy_pool)).
  assert (Hr : reachable s).
  { apply (play_reachable (mkConfig 1 0 Second None)
             [submit_call None job_until_cancelled; submit_call None job_ok]
             [Run 0 Case1; Run 1 Case1; Run 1 Case1; Handoff 1 0; Run 0 Case1;
              Run 0 Case1; Run 2 Case1; Run 2 Case1; CtxDone 2 ByDeadline;
              Run 2 Case2; Run 2 Case1]%nat);
      [repeat constructor | vm_compute; reflexivity]. }
  exact (proj1 Submit_results s 2%nat (Some ByDeadline) job_ok _ Hr eq_refl).
Defined.

(** ** Accounting of the counters *)

Ltac acc_facts l i t Hi :=
  pose proof (count_lookup_le sub_new l i t Hi);
  pose proof (count_lookup_le sub_refused l i t Hi);
  pose proof (count_lookup_le sub_trying l i t Hi);
  pose proof (count_lookup_le sub_given_up l i t Hi);
  pose proof (count_lookup_le sub_sent l i t Hi);
  pose proof (count_lookup_le w_holding l i t Hi);
  pose proof (count_lookup_le w_running l i t Hi);
  pose proof (count_lookup_le w_skipping l i t Hi).

Ltac acc_nonneg l :=
  pose proof (count_nonneg sub_new l);
  pose proof (count_nonneg sub_refused l);
  pose proof (count_nonneg sub_trying l);
  pose proof (count_nonneg sub_given_up l);
  pose proof (count_nonneg sub_sent l);
  pose proof (count_nonneg w_holding l);
  pose proof (count_nonneg w_running l).

Lemma tstep_Accounting (n : Z) (p : Pool) (d : bool) (l : list Thread) (i : nat)
    (c : SelCase) (t t' : Thread) (p' : Pool) (d' : bool) (forked : list Thread) :
  n <= MaxInt64 ->
  Accounting n (mkSys p d l) -> l !! i = Some t ->
  tstep c t p d = Some (t', p', d', forked) ->
  Accounting n (mkSys p' d' (<[i := t']> l ++ forked)).
Proof.
  intros Hn [A1 A2 A3 A4 A5 A6 A7 A8] Hi Ht. cbn [pool doneCh threads] in *.
  acc_facts l i t Hi. acc_nonneg l.
  pose proof (Nat2Z.is_nonneg (length (buf (jobs p)))) as Hlen.
  destruct t as [id pc|ctx job pc|pc|pc]; destruct pc; cbn in Ht; unfold out in Ht;
    repeat case_match; simplify_eq;
    constructor; cbn [pool doneCh threads];
    rewrite ?count_app, ?(count_insert _ _ _ _ _ Hi);
    cbn in *; rewrite ?AddInt64_succ by lia; rewrite ?length_app; cbn [length];
    try lia;
    unfold cancelWorkers; repeat case_match; cbn;
    repeat match goal with H : buf _ = _ |- _ => rewrite H in * end; cbn in *;
    try lia;
    try (intros Hc; first [congruence | destruct A8 as [? ?]; [congruence|]; split; lia]).
Qed.

Lemma step_Accounting (n : Z) (a : Action) (s s' : Sys) :
  n <= MaxInt64 -> Accounting n s -> step a s = Some s' -> Accounting n s'.
Proof.
  destruct s as [p d l]. intros Hn HA Hs. destruct a as [i c|i w|i r];
    cbn [step pool doneCh threads] in Hs.
  - destruct (l !! i) as [t|] eqn:Hi; [|discriminate Hs]. cbn in Hs.
    destruct (tstep c t p d) as [[[[t' p'] d'] forked]|] eqn:Ht; [|discriminate Hs].
    injection Hs as <-. eapply tstep_Accounting; eassumption.
  - destruct (l !! i) as [[| ctx job [] | |]|] eqn:Hi; try discriminate Hs.
    destruct (l !! w) as [[id [] | | |]|] eqn:Hw; try discriminate Hs.
    destruct (buf (jobs p)) eqn:Hb; [|discriminate Hs].
    destruct (ch_closed (jobs p)); [discriminate Hs|]. injection Hs as <-.
    assert (Hne : i <> w) by congruence.
    assert (Hw' : <[i := TSubmit ctx job (SReturn None)]> l !! w = Some (TWorker id WRange))
      by (rewrite list_lookup_insert_ne by exact Hne; exact Hw).
    destruct HA as [A1 A2 A3 A4 A5 A6 A7 A8]. cbn [pool doneCh threads] in *.
    constructor; cbn [pool doneCh threads];
      rewrite ?(count_insert _ _ _ _ _ Hw'), ?(count_insert _ _ _ _ _ Hi); cbn;
      rewrite ?Hb in *; cbn in *; try lia;
      intros Hc; destruct (A8 Hc) as [? ?]; split; lia.
  - destruct (l !! i) as [[| [|] job pc | |]|] eqn:Hi; try discriminate Hs.
    injection Hs as <-.
    destruct HA as [A1 A2 A3 A4 A5 A6 A7 A8]. cbn [pool doneCh threads] in *.
    constructor; cbn [pool doneCh threads];
      rewrite ?(count_insert _ _ _ _ _ Hi); try assumption;
      destruct pc as [| | | | |[[]|]|]; cbn; try lia;
      intros Hc; destruct (A8 Hc) as [? ?]; split; lia.
Qed.

Lemma exec_Accounting (n : Z) (tr : list Action) (s s' : Sys) :
  n <= MaxInt64 -> Accounting n s -> exec tr s = Some s' -> Accounting n s'.
Proof.
  intros Hn. revert s. induction tr as [|a tr IH]; intros s HA He; cbn [exec] in He.
  - injection He as <-. exact HA.
  - destruct (step a s) as [s1|] eqn:Hs; [|discriminate He]. cbn in He.
    eapply IH; [eapply step_Accounting; eassumption | exact He].
Qed.

Lemma count_le_length (P : Thread -> bool) (l : list Thread) :
  count P l <= Z.of_nat (length l).
Proof.
  induction l as [|t l IH]; cbn [count length]; [lia | destruct (P t); lia].
Qed.

Lemma New_Accounting (c : Config) (st st' : Store) (s0 : Sys) (clients : list Thread) :
  New c st = Ok (s0, st') ->
  Forall (fun t => at_entry t = true) clients ->
  Accounting (count sub_new clients) (go s0 clients).
Proof.
  intros HN Hcl. pose proof (New_Ok_queue _ _ _ HN) as Hq.
  rewrite (New_spec c st Hq) in HN. injection HN as <- _.
  set (ws := (fun i => TWorker i WInit) <$> seqZ 0 (Workers (effective c))).
  assert (Hcount : forall P, (forall t, at_entry t = true -> P t = false) ->
                     (forall i, P (TWorker i WInit) = false) ->
                     count P (ws ++ clients) = 0).
  { intros P HP HW. rewrite count_app, !count_none; [reflexivity| |].
    - eapply Forall_impl; [exact Hcl | exact HP].
    - apply Forall_fmap, Forall_forall. intros i _. apply HW. }
  assert (Hnew : count sub_new (ws ++ clients) = count sub_new clients).
  { rewrite count_app, (count_none sub_new ws); [lia|].
    apply Forall_fmap, Forall_forall. intros i _. reflexivity. }
  constructor; cbn [go pool doneCh threads metrics jobs buf length
                    Submitted Started Succeeded Failed Dropped];
    repeat match goal with |- context [count ?P (?x ++ clients)] =>
      first [ change (count P (x ++ clients)) with (count sub_new (ws ++ clients));
              rewrite Hnew
            | change (count P (x ++ clients)) with (count P (ws ++ clients));
              rewrite (Hcount P);
              [| intros [? []|? ? [| | | | |[[]|]|]|[]|[]]; done | done ] ]
    end; lia.
Qed.

(** ** The closed flag and the body of once.Do *)

(** A property of the pool alone that every operation of a goroutine
    keeps is kept by every schedule. *)
Lemma exec_pool_invariant (Q : Pool -> Prop) :
  (forall c t p d t' p' d' forked,
     tstep c t p d = Some (t', p', d', forked) -> Q p -> Q p') ->
  forall (tr : list Action) (s s' : Sys),
    exec tr s = Some s' -> Q (pool s) -> Q (pool s').
Proof.
  intros Hstep tr. induction tr as [|a tr IH]; intros s s' He HQ; cbn [exec] in He.
  - injection He as <-. exact HQ.
  - destruct (step a s) as [s1|] eqn:Hs; [|discriminate He]. cbn in He.
    apply (IH s1 s' He). clear IH He. destruct s as [p d l].
    destruct a as [i c|i w|i r]; cbn [step pool doneCh threads] in *.
    + destruct (l !! i) as [t|]; [|discriminate Hs]. cbn in Hs.
      destruct (tstep c t p d) as [[[[t' p'] d'] forked]|] eqn:Ht; [|discriminate Hs].
      injection Hs as <-. eapply Hstep; eassumption.
    + repeat case_match; simplify_eq. exact HQ.
    + repeat case_match; simplify_eq. exact HQ.
Qed.

(** Nothing resets the closed flag. *)
Lemma closed_stays_set (tr : list Action) (s s' : Sys) :
  exec tr s = Some s' -> closed (pool s) = 1 -> closed (pool s') = 1.
Proof.
  apply (exec_pool_invariant (fun p => closed p = 1)).
  intros c t p d t' p' d' forked Ht Hc.
  destruct t as [id pc|ctx job pc|pc|pc]; destruct pc; cbn in Ht; unfold out in Ht;
    repeat case_match; simplify_eq; cbn; try assumption; try reflexivity.
  unfold cancelWorkers. destruct (workerCtx p); assumption.
Qed.

Lemma initiations_app (l1 l2 : list LogLine) :
  initiations (l1 ++ l2) = initiations l1 + initiations l2.
Proof.
  induction l1 as [|x l1 IH]; cbn [initiations app]; [lia|]. destruct x; lia.
Qed.

(** The drain-and-cancel protocol is run at most once, however many calls
    of [Shutdown] there are. *)
Lemma tstep_initiations (p : Pool) (d : bool) (l : list Thread) (i : nat) (c : SelCase)
    (t t' : Thread) (p' : Pool) (d' : bool) (forked : list Thread) :
  Inv (mkSys p d l) -> l !! i = Some t ->
  tstep c t p d = Some (t', p', d', forked) ->
  initiations (logged p) = entered (once p) ->
  initiations (logged p') = entered (once p').
Proof.
  intros HI Hi Ht HQ. pose proof (inv_body _ HI) as H1. cbn [pool threads] in H1.
  pose proof (count_lookup_le sh_deciding l i t Hi).
  pose proof (count_lookup_le sh_forced l i t Hi).
  pose proof (count_nonneg sh_deciding l). pose proof (count_nonneg sh_forced l).
  destruct t as [id pc|ctx job pc|pc|pc]; destruct pc; cbn in Ht; unfold out in Ht;
    repeat case_match; simplify_eq; cbn; rewrite ?initiations_app; cbn;
    unfold cancelWorkers, entered, running in *; repeat case_match; cbn in *;
    try lia; congruence.
Qed.

Lemma Shutdown_body_runs_once (s : Sys) :
  reachable s -> initiations (logged (pool s)) = entered (once (pool s)).
Proof.
  intros (c & st & st' & s0 & clients & tr & HN & Hcl & He).
  pose proof (New_Inv c st st' s0 clients HN Hcl) as HI.
  assert (H0 : initiations (logged (pool (go s0 clients)))
               = entered (once (pool (go s0 clients)))).
  { pose proof (New_Ok_queue _ _ _ HN) as Hq.
    rewrite (New_spec c st Hq) in HN. injection HN as <- _. reflexivity. }
  clear HN Hcl. revert HI H0 He. generalize (go s0 clients). clear s0.
  induction tr as [|a tr IH]; intros s1 HI H0 He; cbn [exec] in He.
  - injection He as <-. exact H0.
  - destruct (step a s1) as [s2|] eqn:Hs; [|discriminate He]. cbn in He.
    apply (IH s2 (step_Inv _ _ _ HI Hs)); [|exact He]. clear IH He.
    destruct s1 as [p d l].
    destruct a as [i sc|i w|i r]; cbn [step pool doneCh threads] in *.
    + destruct (l !! i) as [t|] eqn:Hi; [|discriminate Hs]. cbn in Hs.
      destruct (tstep sc t p d) as [[[[t' p'] d'] forked]|] eqn:Ht; [|discriminate Hs].
      injection Hs as <-. eapply tstep_initiations; eassumption.
    + repeat case_match; simplify_eq. exact H0.
    + repeat case_match; simplify_eq. exact H0.
Qed.

(** ** Repeated calls of Shutdown *)

Section ShutdownAgain.

Variable s : Sys.
Hypothesis Hreach : reachable s.

Lemma returned_means_done (j : nat) (r : option error) :
  threads s !! j = Some (TShutdown (ShReturn r)) ->
  once (pool s) = OnceDone /\ initiations (logged (pool s)) = 1.
Proof.
  intros Hj. pose proof (inv_returned s (reachable_Inv s Hreach)) as H9.
  pose proof (count_lookup sh_returned _ j _ Hj eq_refl) as Hc.
  rewrite (Shutdown_body_runs_once s Hreach).
  unfold completed in H9. destruct (once (pool s)); try lia. split; reflexivity.
Qed.

Lemma returned_nil_or_timeout (j : nat) (r : option error) :
  threads s !! j = Some (TShutdown (ShReturn r)) ->
  r = None \/ r = Some ErrShutdownTimeout.
Proof.
  intros Hj. pose proof (inv_ret s (reachable_Inv s Hreach)) as H8.
  pose proof (count_zero _ _ j _ H8 Hj) as Hb.
  destruct r as [[]|]; try discriminate Hb; auto.
Qed.

Lemma clean_shutdown_all_nil (j : nat) (r : option error) :
  workerCtx (pool s) = None ->
  threads s !! j = Some (TShutdown (ShReturn r)) -> r = None.
Proof.
  intros Hctx Hj. pose proof (inv_cancel s (reachable_Inv s Hreach)) as H2.
  rewrite Hctx in H2. cbn in H2.
  pose proof (count_nonneg sh_forced (threads s)).
  pose proof (count_nonneg sh_timed_out (threads s)).
  assert (Hz : count sh_timed_out (threads s) = 0) by lia.
  pose proof (count_zero _ _ j _ Hz Hj) as Hb.
  destruct r; [discriminate Hb | reflexivity].
Qed.

(** C1, as the code has it.  However many calls of [Shutdown] there are,
    the body of [once.Do] is entered at most once, and exactly once when
    some call has returned.  A call made while the first is still inside
    waits; a call made after it has left changes nothing and returns nil.
    Every call returns nil or [ErrShutdownTimeout], at most one call
    returns an error, and when no cancellation was forced (the first call
    returned nil) every call returns nil. *)
Theorem Shutdown_repeated_calls :
  initiations (logged (pool s)) = entered (once (pool s))
  /\ (forall j r, threads s !! j = Some (TShutdown (ShReturn r)) ->
        once (pool s) = OnceDone /\ initiations (logged (pool s)) = 1)
  /\ (forall i c, threads s !! i = Some (TShutdown ShEntry) ->
        once (pool s) = OnceRunning -> step (Run i c) s = None)
  /\ (forall i c, threads s !! i = Some (TShutdown ShEntry) ->
        once (pool s) = OnceDone ->
        step (Run i c) s
        = Some (mkSys (pool s) (doneCh s)
                  (<[i := TShutdown (ShReturn None)]> (threads s))))
  /\ (forall j r, threads s !! j = Some (TShutdown (ShReturn r)) ->
        r = None \/ r = Some ErrShutdownTimeout)
  /\ (forall j k rj rk, j <> k ->
        threads s !! j = Some (TShutdown (ShReturn rj)) ->
        threads s !! k = Some (TShutdown (ShReturn rk)) ->
        rj = None \/ rk = None)
  /\ (workerCtx (pool s) = None ->
      forall j r, threads s !! j = Some (TShutdown (ShReturn r)) -> r = None).
Proof.
  split; [apply Shutdown_body_runs_once, Hreach|].
  split; [apply returned_means_done|].
  split; [intros i c Hi Ho; run_thread Hi; rewrite Ho; reflexivity|].
  split; [intros i c Hi Ho; apply Shutdown_again_returns_nil; assumption|].
  split; [apply returned_nil_or_timeout|].
  split; [|intros Hctx j r; apply clean_shutdown_all_nil, Hctx].
  intros j k rj rk Hne Hj Hk.
  destruct rj as [ej|]; [|left; reflexivity]. destruct rk as [ek|]; [|right; reflexivity].
  pose proof (timeout_path_unique s Hreach j k _ _ Hne Hj Hk eq_refl) as Hu.
  discriminate Hu.
Qed.

End ShutdownAgain.

Lemma forced_returned_reachable : reachable forced_returned.
Proof.
  apply (play_reachable forced_cfg forced_clients (forced_drain ++ forced_exit));
    [repeat constructor | vm_compute; reflexivity].
Defined.

Lemma Shutdown_repeated_calls_witness :
  step (Run 4 Case1) forced_returned
  = Some (mkSys (pool forced_returned) (doneCh forced_returned)
            (<[4%nat := TShutdown (ShReturn None)]> (threads forced_returned)))
  /\ initiations (logged (pool forced_returned)) = 1.
Proof.
  destruct (Shutdown_repeated_calls forced_returned forced_returned_reachable)
    as (_ & Hdone & _ & Hagain & _).
  split.
  - apply (Hagain 4%nat Case1); vm_compute; reflexivity.
  - apply (Hdone 3%nat (Some ErrShutdownTimeout)). vm_compute. reflexivity.
Defined.

(** ** The counters under every schedule *)

(** C2, as the code has it, for fewer than 2^63 calls of [Submit] (no
    counter wraps).  In every state Started and Succeeded + Failed are at
    most Submitted.  As long as the pool's context is not cancelled, no
    job has been skipped: Succeeded + Failed is at most Started, and they
    are equal in a quiescent state.  In every quiescent state Started is
    at most Succeeded + Failed. *)
Theorem counters_conservation (c : Config) (st st' : Store) (s0 : Sys)
    (clients : list Thread) (tr : list Action) (s : Sys) :
  New c st = Ok (s0, st') ->
  Forall (fun t => at_entry t = true) clients ->
  Z.of_nat (length clients) <= MaxInt64 ->
  exec tr (go s0 clients) = Some s ->
  let m := metrics (pool s) in
  Started m <= Submitted m
  /\ Succeeded m + Failed m <= Submitted m
  /\ (workerCtx (pool s) = None ->
      Succeeded m + Failed m <= Started m
      /\ (quiescent s = true -> Started m = Succeeded m + Failed m))
  /\ (quiescent s = true -> Started m <= Succeeded m + Failed m).
Proof.
  intros HN Hcl Hlen He m.
  pose proof (count_le_length sub_new clients) as Hle.
  assert (HA : Accounting (count sub_new clients) s).
  { eapply exec_Accounting; [lia | eapply New_Accounting; eassumption | exact He]. }
  destruct HA as [A1 A2 A3 A4 A5 A6 A7 A8]. fold m in A2, A3, A4, A5, A6, A7, A8.
  acc_nonneg (threads s).
  pose proof (Nat2Z.is_nonneg (length (buf (jobs (pool s))))).
  assert (Hquiet : quiescent s = true -> count w_running (threads s) = 0).
  { intros Hq. unfold quiescent in Hq.
    destruct (buf (jobs (pool s))); [|discriminate Hq].
    apply count_none, Forall_forall. intros t Hin.
    rewrite forallb_forall in Hq. specialize (Hq t (proj1 (list_elem_of_In _ _) Hin)).
    destruct t as [? []| | |]; try reflexivity; discriminate Hq. }
  split; [lia|]. split; [lia|]. split.
  - intros Hctx. destruct (A8 Hctx) as [_ Heq]. split; [lia|].
    intros Hq. specialize (Hquiet Hq). lia.
  - intros Hq. specialize (Hquiet Hq). lia.
Qed.

Lemma counters_conservation_witness :
  let s := the (play forced_cfg clean_clients clean_run) in
  metrics (pool s) = mkMetrics 2 2 1 1 0
  /\ Started (metrics (pool s))
     = Succeeded (metrics (pool s)) + Failed (metrics (pool s)).
Proof.
  intros s. split; [vm_compute; reflexivity|].
  assert (Hlen : Z.of_nat (length clean_clients) <= MaxInt64) by (vm_compute; discriminate).
  assert (Hcl : Forall (fun t => at_entry t = true) clean_clients) by (repeat constructor).
  assert (HN : New forced_cfg [] = Ok (the (boot forced_cfg []), [effective forced_cfg]))
    by (vm_compute; reflexivity).
  assert (He : exec clean_run (go (the (boot forced_cfg [])) clean_clients) = Some s)
    by (vm_compute; reflexivity).
  destruct (counters_conservation forced_cfg [] [effective forced_cfg]
              (the (boot forced_cfg [])) clean_clients clean_run s
              HN Hcl Hlen He) as (_ & _ & Hclean & _).
  apply Hclean; vm_compute; reflexivity.
Defined.

(** * Further properties of the pool *)

(** ** Invariants by pairs *)

Lemma exec_invariant2 (I J : Sys -> Prop) :
  (forall a s s', I s -> step a s = Some s' -> I s') ->
  (forall a s s', I s -> J s -> step a s = Some s' -> J s') ->
  forall (tr : list Action) (s s' : Sys),
    I s -> J s -> exec tr s = Some s' -> J s'.
Proof.
  intros HI HJ tr. induction tr as [|a tr IH]; intros s s' Is Js He; cbn [exec] in He.
  - injection He as <-. exact Js.
  - destruct (step a s) as [s1|] eqn:Hs; [|discriminate He]. cbn in He.
    apply (IH s1 s'); [eapply HI | eapply HJ | exact He]; eassumption.
Qed.

Lemma count_mono (P Q : Thread -> bool) (l : list Thread) :
  (forall t, P t = true -> Q t = true) -> count P l <= count Q l.
Proof.
  intros HPQ. induction l as [|t l IH]; cbn [count]; [lia|].
  destruct (P t) eqn:HP; [rewrite (HPQ t HP); lia | destruct (Q t); lia].
Qed.

Lemma count_split (P Q R : Thread -> bool) (l : list Thread) :
  (forall t, R t = P t || Q t) -> (forall t, P t && Q t = false) ->
  count R l = count P l + count Q l.
Proof.
  intros HR HD. induction l as [|t l IH]; cbn [count]; [lia|].
  rewrite HR. specialize (HD t). destruct (P t), (Q t); cbn in *; try discriminate; lia.
Qed.

Lemma effective_Workers (c : Config) : 1 <= Workers (effective c).
Proof. cbn. destruct (Z.leb_spec (Workers c) 0); lia. Qed.

(** ** The shape of the pool *)

Ltac shape_facts l i t Hi :=
  pose proof (count_lookup_le is_worker l i t Hi);
  pose proof (count_lookup_le w_gone l i t Hi);
  pose proof (count_lookup_le sh_storing l i t Hi);
  pose proof (count_lookup_le sh_before_close l i t Hi);
  pose proof (count_lookup_le sh_panicked l i t Hi);
  pose proof (count_lookup_le sh_deciding l i t Hi);
  pose proof (count_lookup_le sh_forced l i t Hi);
  pose proof (count_nonneg w_gone l);
  pose proof (count_nonneg sh_storing l);
  pose proof (count_nonneg sh_before_close l);
  pose proof (count_nonneg sh_deciding l);
  pose proof (count_nonneg sh_forced l);
  assert (count sh_storing l <= count sh_before_close l)
    by (apply count_mono; intros [| |[]|]; done).

Ltac bool_facts :=
  repeat match goal with
         | H : (_ <? _) = true |- _ => apply Z.ltb_lt in H
         | H : (_ <? _) = false |- _ => apply Z.ltb_ge in H
         | H : (_ =? _) = true |- _ => apply Z.eqb_eq in H
         | H : (_ =? _) = false |- _ => apply Z.eqb_neq in H
         end.

Lemma tstep_Shape (e : Config) (p : Pool) (d : bool) (l : list Thread) (i : nat)
    (sc : SelCase) (t t' : Thread) (p' : Pool) (d' : bool) (forked : list Thread) :
  Inv (mkSys p d l) -> Shape e (mkSys p d l) -> l !! i = Some t ->
  tstep sc t p d = Some (t', p', d', forked) ->
  Shape e (mkSys p' d' (<[i := t']> l ++ forked)).
Proof.
  intros HI [S1 S2 S3 S4 S5 S6 S7 S8 S9] Hi Ht.
  pose proof (inv_body _ HI) as H1. clear HI. cbn [pool doneCh threads] in *.
  destruct t as [id pc|ctx job pc|pc|pc]; destruct pc; cbn in Ht; unfold out in Ht;
    repeat case_match; simplify_eq; bool_facts;
    match type of Hi with ?l !! ?i = Some ?t => shape_facts l i t Hi end;
    constructor; cbn [pool doneCh threads];
    rewrite ?count_app, ?(count_insert _ _ _ _ _ Hi);
    cbn in *; unfold b2z, entered, completed, running, cancelWorkers in *;
    repeat case_match; simplify_eq;
    repeat match goal with H : buf _ = _ |- _ => rewrite H in * end; cbn in *;
    rewrite ?length_app in *; cbn [length] in *;
    try assumption; try lia; try congruence; try (intuition lia).
Qed.

Lemma step_Shape (e : Config) (a : Action) (s s' : Sys) :
  Inv s -> Shape e s -> step a s = Some s' -> Shape e s'.
Proof.
  destruct s as [p d l]. intros HI HS Hs. destruct a as [i c|i w|i r];
    cbn [step pool doneCh threads] in Hs.
  - destruct (l !! i) as [t|] eqn:Hi; [|discriminate Hs]. cbn in Hs.
    destruct (tstep c t p d) as [[[[t' p'] d'] forked]|] eqn:Ht; [|discriminate Hs].
    injection Hs as <-. eapply tstep_Shape; eassumption.
  - destruct (l !! i) as [[| ctx job [] | |]|] eqn:Hi; try discriminate Hs.
    destruct (l !! w) as [[id [] | | |]|] eqn:Hw; try discriminate Hs.
    destruct (buf (jobs p)) eqn:Hb; [|discriminate Hs].
    destruct (ch_closed (jobs p)) eqn:Hc; [discriminate Hs|]. injection Hs as <-.
    assert (Hne : i <> w) by congruence.
    assert (Hw' : <[i := TSubmit ctx job (SReturn None)]> l !! w = Some (TWorker id WRange))
      by (rewrite list_lookup_insert_ne by exact Hne; exact Hw).
    destruct HS as [S1 S2 S3 S4 S5 S6 S7 S8 S9]. cbn [pool doneCh threads] in *.
    constructor; cbn [pool doneCh threads];
      rewrite ?(count_insert _ _ _ _ _ Hw'), ?(count_insert _ _ _ _ _ Hi); cbn;
      rewrite ?Hb, ?Hc in *; cbn in *; try assumption; try lia.
  - destruct (l !! i) as [[| [|] job pc | |]|] eqn:Hi; try discriminate Hs.
    injection Hs as <-.
    destruct HS as [S1 S2 S3 S4 S5 S6 S7 S8 S9]. cbn [pool doneCh threads] in *.
    constructor; cbn [pool doneCh threads];
      rewrite ?(count_insert _ _ _ _ _ Hi); cbn; try assumption; try lia;
      try (intros Hg; apply S5; lia).
Qed.

Lemma New_Shape (c : Config) (st st' : Store) (s0 : Sys) (clients : list Thread) :
  New c st = Ok (s0, st') ->
  Forall (fun t => at_entry t = true) clients ->
  Shape (effective c) (go s0 clients).
Proof.
  intros HN Hcl. pose proof (New_Ok_queue _ _ _ HN) as Hq.
  pose proof (effective_Workers c) as Hw.
  rewrite (New_spec c st Hq) in HN. injection HN as <- _.
  set (ws := (fun i => TWorker i WInit) <$> seqZ 0 (Workers (effective c))).
  assert (Hcount : forall P, (forall t, at_entry t = true -> P t = false) ->
                     (forall i, P (TWorker i WInit) = false) ->
                     count P (ws ++ clients) = 0).
  { intros P HP HW. rewrite count_app, !count_none; [reflexivity| |].
    - eapply Forall_impl; [exact Hcl | exact HP].
    - apply Forall_fmap, Forall_forall. intros i _. apply HW. }
  constructor; cbn [go pool doneCh threads cfg jobs cap buf ch_closed once closed length];
    fold ws.
  - reflexivity.
  - change (_ <$> _) with ws.
    rewrite count_app, (count_none is_worker clients), count_all.
    + unfold ws. rewrite length_fmap, length_seqZ. lia.
    + apply Forall_fmap, Forall_forall. intros i _. reflexivity.
    + eapply Forall_impl; [exact Hcl|]. intros [? []|? ? []|[]|[]]; done.
  - reflexivity.
  - cbn. lia.
  - change (_ <$> _) with ws.
    rewrite Hcount; [lia| |]; try (intros [? []|? ? []|[]|[]]; done); done.
  - change (_ <$> _) with ws.
    rewrite Hcount; [reflexivity| |]; try (intros [? []|? ? []|[]|[]]; done); done.
  - change (_ <$> _) with ws.
    rewrite Hcount; [reflexivity| |]; try (intros [? []|? ? []|[]|[]]; done); done.
  - change (_ <$> _) with ws.
    rewrite Hcount; [reflexivity| |]; try (intros [? []|? ? []|[]|[]]; done); done.
  - cbn. lia.
Qed.

Lemma reached_reachable (c : Config) (clients : list Thread) (s : Sys) :
  reached c clients s -> reachable s.
Proof.
  intros (st & st' & s0 & tr & HN & Hcl & He). exists c, st, st', s0, clients, tr. auto.
Qed.

Lemma play_reached (c : Config) (clients : list Thread) (tr : list Action) (s : Sys) :
  Forall (fun t => at_entry t = true) clients ->
  play c clients tr = Some s -> reached c clients s.
Proof.
  unfold play, boot. intros Hcl Hp.
  destruct (New c []) as [[s0 st']|] eqn:HN; [|discriminate Hp]. cbn in Hp.
  exists [], st', s0, tr. auto.
Qed.

Lemma reached_exec (c : Config) (clients : list Thread) (tr : list Action) (s s' : Sys) :
  reached c clients s -> exec tr s = Some s' -> reached c clients s'.
Proof.
  intros (st & st' & s0 & tr0 & HN & Hcl & He) Hs.
  exists st, st', s0, (tr0 ++ tr). split; [exact HN|]. split; [exact Hcl|].
  rewrite exec_app, He. exact Hs.
Qed.

Lemma reached_Shape (c : Config) (clients : list Thread) (s : Sys) :
  reached c clients s -> Shape (effective c) s.
Proof.
  intros (st & st' & s0 & tr & HN & Hcl & He).
  refine (exec_invariant2 Inv (Shape (effective c)) step_Inv _ tr _ s _ _ He).
  - intros a s1 s2. apply step_Shape.
  - eapply New_Inv; eassumption.
  - eapply New_Shape; eassumption.
Qed.

Lemma reached_Accounting (c : Config) (clients : list Thread) (s : Sys) :
  reached c clients s -> Z.of_nat (length clients) <= MaxInt64 ->
  Accounting (count sub_new clients) s.
Proof.
  intros (st & st' & s0 & tr & HN & Hcl & He) Hlen.
  pose proof (count_le_length sub_new clients).
  eapply exec_Accounting; [lia | eapply New_Accounting; eassumption | exact He].
Qed.

(** ** Skipped jobs and the growth of the counters *)

Lemma skips_app (l1 l2 : list LogLine) : skips (l1 ++ l2) = skips l1 + skips l2.
Proof.
  induction l1 as [|x l1 IH]; cbn [skips app]; [lia|]. destruct x; lia.
Qed.

Lemma tstep_skip_law (n : Z) (p : Pool) (d : bool) (l : list Thread) (i : nat)
    (sc : SelCase) (t t' : Thread) (p' : Pool) (d' : bool) (forked : list Thread) :
  n <= MaxInt64 ->
  Accounting n (mkSys p d l) -> skip_law (mkSys p d l) -> l !! i = Some t ->
  tstep sc t p d = Some (t', p', d', forked) ->
  skip_law (mkSys p' d' (<[i := t']> l ++ forked)).
Proof.
  intros Hn [A1 A2 A3 A4 A5 A6 A7 A8] HS Hi Ht. clear A8.
  unfold skip_law in *. cbn [pool doneCh threads] in *.
  pose proof (Nat2Z.is_nonneg (length (buf (jobs p)))) as Hlen.
  destruct t as [id pc|ctx job pc|pc|pc]; destruct pc; cbn in Ht; unfold out in Ht;
    repeat case_match; simplify_eq;
    match type of Hi with ?l !! ?i = Some ?t => acc_facts l i t Hi; acc_nonneg l end;
    rewrite ?count_app, ?(count_insert _ _ _ _ _ Hi);
    cbn in *; rewrite ?AddInt64_succ by lia; rewrite ?skips_app; cbn;
    unfold cancelWorkers; repeat case_match; cbn; lia.
Qed.

Lemma step_skip_law (n : Z) (a : Action) (s s' : Sys) :
  n <= MaxInt64 -> Accounting n s -> skip_law s -> step a s = Some s' -> skip_law s'.
Proof.
  destruct s as [p d l]. intros Hn HA HS Hs. destruct a as [i c|i w|i r];
    cbn [step pool doneCh threads] in Hs.
  - destruct (l !! i) as [t|] eqn:Hi; [|discriminate Hs]. cbn in Hs.
    destruct (tstep c t p d) as [[[[t' p'] d'] forked]|] eqn:Ht; [|discriminate Hs].
    injection Hs as <-. eapply tstep_skip_law; eassumption.
  - destruct (l !! i) as [[| ctx job [] | |]|] eqn:Hi; try discriminate Hs.
    destruct (l !! w) as [[id [] | | |]|] eqn:Hw; try discriminate Hs.
    destruct (buf (jobs p)) eqn:Hb; [|discriminate Hs].
    destruct (ch_closed (jobs p)) eqn:Hc; [discriminate Hs|]. injection Hs as <-.
    assert (Hne : i <> w) by congruence.
    assert (Hw' : <[i := TSubmit ctx job (SReturn None)]> l !! w = Some (TWorker id WRange))
      by (rewrite list_lookup_insert_ne by exact Hne; exact Hw).
    unfold skip_law in *. cbn [pool doneCh threads] in *.
    rewrite (count_insert _ _ _ _ _ Hw'), (count_insert _ _ _ _ _ Hi). cbn. lia.
  - destruct (l !! i) as [[| [|] job pc | |]|] eqn:Hi; try discriminate Hs.
    injection Hs as <-. unfold skip_law in *. cbn [pool doneCh threads] in *.
    rewrite (count_insert _ _ _ _ _ Hi). cbn. lia.
Qed.

Lemma reached_skip_law (c : Config) (clients : list Thread) (s : Sys) :
  reached c clients s -> Z.of_nat (length clients) <= MaxInt64 -> skip_law s.
Proof.
  intros (st & st' & s0 & tr & HN & Hcl & He) Hlen.
  pose proof (count_le_length sub_new clients) as Hle.
  assert (Hn : count sub_new clients <= MaxInt64) by lia.
  refine (exec_invariant2 (Accounting (count sub_new clients)) skip_law
            _ _ tr _ s _ _ He).
  - intros a s1 s2. apply step_Accounting, Hn.
  - intros a s1 s2. apply step_skip_law, Hn.
  - eapply New_Accounting; eassumption.
  - pose proof (New_Ok_queue _ _ _ HN) as Hq.
    rewrite (New_spec c st Hq) in HN. injection HN as <- _.
    unfold skip_law. cbn [go pool threads metrics logged Started Succeeded Failed skips].
    rewrite count_app, !count_none; [reflexivity| |].
    + eapply Forall_impl; [exact Hcl|]. intros [? []|? ? []|[]|[]]; done.
    + apply Forall_fmap, Forall_forall. intros i _. reflexivity.
Qed.

Lemma counters_le_refl (m : Metrics) : counters_le m m.
Proof. unfold counters_le. lia. Qed.

Lemma counters_le_trans (m1 m2 m3 : Metrics) :
  counters_le m1 m2 -> counters_le m2 m3 -> counters_le m1 m3.
Proof. unfold counters_le. lia. Qed.

Lemma tstep_counters_le (n : Z) (p : Pool) (d : bool) (l : list Thread) (i : nat)
    (sc : SelCase) (t t' : Thread) (p' : Pool) (d' : bool) (forked : list Thread) :
  n <= MaxInt64 ->
  Accounting n (mkSys p d l) -> l !! i = Some t ->
  tstep sc t p d = Some (t', p', d', forked) ->
  counters_le (metrics p) (metrics p').
Proof.
  intros Hn [A1 A2 A3 A4 A5 A6 A7 A8] Hi Ht. clear A8.
  unfold counters_le. cbn [pool doneCh threads] in *.
  pose proof (Nat2Z.is_nonneg (length (buf (jobs p)))) as Hlen.
  destruct t as [id pc|ctx job pc|pc|pc]; destruct pc; cbn in Ht; unfold out in Ht;
    repeat case_match; simplify_eq;
    match type of Hi with ?l !! ?i = Some ?t => acc_facts l i t Hi; acc_nonneg l end;
    cbn in *; rewrite ?AddInt64_succ by lia;
    unfold cancelWorkers; repeat case_match; cbn; lia.
Qed.

Lemma exec_counters_le (n : Z) (tr : list Action) (s s' : Sys) :
  n <= MaxInt64 -> Accounting n s -> exec tr s = Some s' ->
  counters_le (metrics (pool s)) (metrics (pool s')).
Proof.
  intros Hn. revert s. induction tr as [|a tr IH]; intros s HA He; cbn [exec] in He.
  - injection He as <-. apply counters_le_refl.
  - destruct (step a s) as [s1|] eqn:Hs; [|discriminate He]. cbn in He.
    apply counters_le_trans with (metrics (pool s1)).
    + clear IH He. destruct s as [p d l].
      destruct a as [i c|i w|i r]; cbn [step pool doneCh threads] in *.
      * destruct (l !! i) as [t|] eqn:Hi; [|discriminate Hs]. cbn in Hs.
        destruct (tstep c t p d) as [[[[t' p'] d'] forked]|] eqn:Ht; [|discriminate Hs].
        injection Hs as <-. eapply tstep_counters_le; eassumption.
      * repeat case_match; simplify_eq. apply counters_le_refl.
      * repeat case_match; simplify_eq. apply counters_le_refl.
    + apply IH; [eapply step_Accounting; eassumption | exact He].
Qed.

(** ** Scenarios that are reached *)

Lemma clean_final_reached : reached forced_cfg clean_clients clean_final.
Proof.
  apply (play_reached forced_cfg clean_clients clean_run);
    [repeat constructor | vm_compute; reflexivity].
Defined.

Lemma forced_returned_reached : reached forced_cfg forced_clients forced_returned.
Proof.
  apply (play_reached forced_cfg forced_clients (forced_drain ++ forced_exit));
    [repeat constructor | vm_compute; reflexivity].
Defined.

Lemma racing_pool_reached : reached forced_cfg racing_clients racing_pool.
Proof.
  apply (play_reached forced_cfg racing_clients [R 1; R 2; R 2; R 2; R 1]%nat);
    [repeat constructor | vm_compute; reflexivity].
Defined.

Lemma few_calls (clients : list Thread) :
  (length clients <= 1000)%nat -> Z.of_nat (length clients) <= MaxInt64.
Proof. unfold MaxInt64. intros H. apply Nat2Z.inj_le in H. cbn in H. lia. Defined.

(** ** withDefaults *)

(** X1: [withDefaults] panics on a nil receiver.  Otherwise it leaves the
    store alone and returns a configuration with at least one worker, a
    positive timeout and a logger, with the queue size and every field
    that was already in range unchanged; on its own result it changes
    nothing. *)
Theorem withDefaults_normalises (c : nat) (st : Store) :
  match st !! c with
  | None => exists msg, withDefaults c st = Panic msg
  | Some v =>
      exists out,
        withDefaults c st = Ok (out, st)
        /\ 1 <= Workers out
        /\ 0 < ShutdownTimeout out
        /\ Logger out <> None
        /\ QueueSize out = QueueSize v
        /\ (0 < Workers v -> Workers out = Workers v)
        /\ (Workers v <= 0 -> Workers out = 1)
        /\ (0 < ShutdownTimeout v -> ShutdownTimeout out = ShutdownTimeout v)
        /\ (ShutdownTimeout v <= 0 -> ShutdownTimeout out = 30 * Second)
        /\ (Logger v <> None -> Logger out = Logger v)
        /\ (forall c2 st2, st2 !! c2 = Some out -> withDefaults c2 st2 = Ok (out, st2))
  end.
Proof.
  destruct (st !! c) as [v|] eqn:Hc.
  - exists (effective v). split; [apply withDefaults_spec, Hc|].
    destruct v as [w q t lg]. cbn [effective Workers QueueSize ShutdownTimeout Logger].
    unfold Second.
    destruct (Z.leb_spec w 0), (Z.leb_spec t 0); repeat split; try lia;
      try discriminate; try (destruct lg; [reflexivity | contradiction]);
      intros c2 st2 H2; rewrite (withDefaults_spec _ _ _ H2); unfold effective;
      cbn [Workers QueueSize ShutdownTimeout Logger default]; unfold Second;
      repeat match goal with
             | |- context [?a <=? 0] =>
                 destruct (Z.leb_spec a 0); try lia
             end; reflexivity.
  - eexists. unfold withDefaults, deref. rewrite Hc. reflexivity.
Qed.

Lemma withDefaults_normalises_witness :
  exists out,
    withDefaults 0 [mkConfig (-3) 7 0 None] = Ok (out, [mkConfig (-3) 7 0 None])
    /\ Workers out = 1 /\ QueueSize out = 7 /\ ShutdownTimeout out = 30 * Second.
Proof.
  pose proof (withDefaults_normalises 0 [mkConfig (-3) 7 0 None]) as H. cbn [lookup] in H.
  change ([mkConfig (-3) 7 0 None] !! 0%nat) with (Some (mkConfig (-3) 7 0 None)) in H.
  destruct H as (out & H0 & _ & _ & _ & Hq & _ & Hw & _ & Ht & _).
  exists out. repeat split; [exact H0 | apply Hw; cbn; lia | exact Hq | apply Ht; cbn; lia].
Defined.

(** ** Bounds that New fixes *)

(** X2: the pool always has exactly the configured number of worker
    goroutines, so at most that many jobs run at the same time, and the
    wait group counts between zero and that many live workers. *)
Theorem running_jobs_bounded (c : Config) (clients : list Thread) (s : Sys)
    (Hreached : reached c clients s) :
  count is_worker (threads s) = Workers (effective c)
  /\ count w_running (threads s) <= Workers (effective c)
  /\ 0 <= wg (pool s) <= Workers (effective c)
  /\ cfg (pool s) = effective c.
Proof.
  pose proof (reached_Shape _ _ _ Hreached) as HS.
  pose proof (reachable_Inv _ (reached_reachable _ _ _ Hreached)) as HI.
  rewrite (inv_wg _ HI), <- (shape_workers _ _ HS).
  split; [reflexivity|]. split; [|split; [split|apply (shape_cfg _ _ HS)]].
  - apply count_mono. intros [? []| | |]; done.
  - apply count_nonneg.
  - apply count_mono. intros [? []| | |]; done.
Qed.

(** X3: the queue never holds more jobs than the configured capacity,
    and none at all when the capacity is 0. *)
Theorem queue_within_capacity (c : Config) (clients : list Thread) (s : Sys)
    (Hreached : reached c clients s) :
  cap (jobs (pool s)) = QueueSize c
  /\ Z.of_nat (length (buf (jobs (pool s)))) <= QueueSize c
  /\ (QueueSize c = 0 -> buf (jobs (pool s)) = []).
Proof.
  pose proof (reached_Shape _ _ _ Hreached) as HS.
  pose proof (shape_buf _ _ HS) as Hb. cbn [QueueSize effective] in Hb.
  split; [apply (shape_cap _ _ HS)|]. split; [exact Hb|].
  intros H0. destruct (buf (jobs (pool s))); [reflexivity|]. cbn [length] in Hb. lia.
Qed.

(** X4: a worker leaves its loop only after [Shutdown] has set the closed
    flag and closed the queue, and only with the queue drained; from then
    on the queue stays empty. *)
Theorem worker_exits_only_after_close (c : Config) (clients : list Thread) (s : Sys)
    (Hreached : reached c clients s)
    (j : nat) (t : Thread) :
  threads s !! j = Some t -> w_gone t = true ->
  ch_closed (jobs (pool s)) = true
  /\ buf (jobs (pool s)) = []
  /\ closed (pool s) = 1
  /\ once (pool s) <> OnceFresh.
Proof.
  intros Hj Ht. pose proof (reached_Shape _ _ _ Hreached) as HS.
  pose proof (count_lookup w_gone _ j t Hj Ht) as Hg.
  destruct (shape_gone _ _ HS) as [Hb Hc]; [lia|].
  pose proof (shape_close _ _ HS) as H6. pose proof (shape_flag _ _ HS) as H7.
  pose proof (count_nonneg sh_before_close (threads s)).
  pose proof (count_nonneg sh_storing (threads s)).
  assert (count sh_storing (threads s) <= count sh_before_close (threads s))
    by (apply count_mono; intros [| |[]|]; done).
  unfold b2z, entered in *.
  destruct (ch_closed (jobs (pool s))); [|discriminate Hc].
  split; [reflexivity|]. split; [|split].
  - destruct (buf (jobs (pool s))); [reflexivity | discriminate Hb].
  - destruct (once (pool s)); lia.
  - destruct (once (pool s)); [lia | discriminate | discriminate].
Qed.

(** X5: [Shutdown] never panics: the queue is closed at most once, the
    wait group never goes below zero, and the closed flag is 0 or 1. *)
Theorem Shutdown_never_panics (c : Config) (clients : list Thread) (s : Sys)
    (Hreached : reached c clients s) :
  (forall i msg, threads s !! i <> Some (TShutdown (ShPanic msg)))
  /\ 0 <= wg (pool s)
  /\ (closed (pool s) = 0 \/ closed (pool s) = 1).
Proof.
  pose proof (reached_Shape _ _ _ Hreached) as HS.
  pose proof (reachable_Inv _ (reached_reachable _ _ _ Hreached)) as HI.
  split; [|split].
  - intros i msg Hi.
    pose proof (count_lookup sh_panicked _ i _ Hi eq_refl) as Hp.
    rewrite (shape_panic _ _ HS) in Hp. lia.
  - rewrite (inv_wg _ HI). apply count_nonneg.
  - pose proof (shape_close _ _ HS) as H6. pose proof (shape_flag _ _ HS) as H7.
    pose proof (count_nonneg sh_storing (threads s)).
    assert (count sh_storing (threads s) <= count sh_before_close (threads s))
      by (apply count_mono; intros [| |[]|]; done).
    unfold b2z, entered in *.
    destruct (ch_closed (jobs (pool s))), (once (pool s)); lia.
Qed.

(** X6: the [done] channel is closed only when every worker has exited. *)
Theorem done_means_workers_exited (c : Config) (clients : list Thread) (s : Sys)
    (Hreached : reached c clients s) :
  doneCh s = true ->
  wg (pool s) = 0
  /\ forall j id pc, threads s !! j = Some (TWorker id pc) -> pc = WDone.
Proof.
  intros Hd. pose proof (reached_reachable _ _ _ Hreached) as Hr.
  pose proof (inv_done _ (reachable_Inv _ Hr) Hd) as Hwg.
  split; [exact Hwg | apply (workers_exited s Hr Hwg)].
Qed.

(** X7: once any call of [Shutdown] has returned, the closed flag is set
    for good, and a [Submit] that begins is refused with [ErrPoolClosed]
    and counted in Dropped. *)
Theorem Submit_after_Shutdown_returned (c : Config) (clients : list Thread) (s : Sys)
    (Hreached : reached c clients s)
    (j i : nat) (r : option error) (ctx : Context) (job : Job) (c1 c2 : SelCase) :
  threads s !! j = Some (TShutdown (ShReturn r)) ->
  threads s !! i = Some (TSubmit ctx job SEntry) ->
  closed (pool s) = 1
  /\ ch_closed (jobs (pool s)) = true
  /\ (forall tr s', exec tr s = Some s' -> closed (pool s') = 1)
  /\ exec [Run i c1; Run i c2] s =
       Some (mkSys (with_metrics (pool s) (inc_Dropped (metrics (pool s)))) (doneCh s)
               (<[i := TSubmit ctx job (SReturn (Some ErrPoolClosed))]> (threads s))).
Proof.
  intros Hj Hi. pose proof (reached_Shape _ _ _ Hreached) as HS.
  pose proof (reached_reachable _ _ _ Hreached) as Hr.
  pose proof (reachable_Inv _ Hr) as HI.
  pose proof (inv_returned _ HI) as H9. pose proof (inv_body _ HI) as H1.
  pose proof (count_lookup sh_returned _ j _ Hj eq_refl) as Hc.
  pose proof (shape_close _ _ HS) as H6. pose proof (shape_flag _ _ HS) as H7.
  pose proof (count_nonneg sh_deciding (threads s)).
  pose proof (count_nonneg sh_forced (threads s)).
  assert (count sh_before_close (threads s) <= count sh_deciding (threads s))
    by (apply count_mono; intros [| |[]|]; done).
  assert (count sh_storing (threads s) <= count sh_before_close (threads s))
    by (apply count_mono; intros [| |[]|]; done).
  pose proof (count_nonneg sh_storing (threads s)).
  assert (Hcl : closed (pool s) = 1 /\ ch_closed (jobs (pool s)) = true).
  { unfold b2z, entered, completed, running in *.
    destruct (once (pool s)); try lia.
    destruct (ch_closed (jobs (pool s))); split; try reflexivity; lia. }
  destruct Hcl as [Hcl Hch]. split; [exact Hcl|]. split; [exact Hch|]. split.
  - intros tr s' He. apply (closed_stays_set tr s s' He Hcl).
  - apply Submit_closed_run; assumption.
Qed.


(** ** What the counters count *)

(** X8: no counter is ever negative, and no counter ever decreases,
    whatever happens next. *)
Theorem counters_never_decrease (c : Config) (clients : list Thread) (s : Sys)
    (Hreached : reached c clients s) (Hfew : Z.of_nat (length clients) <= MaxInt64)
    (tr : list Action) (s' : Sys) :
  exec tr s = Some s' ->
  counters_le (mkMetrics 0 0 0 0 0) (metrics (pool s))
  /\ counters_le (metrics (pool s)) (metrics (pool s')).
Proof.
  intros He. pose proof (reached_Accounting _ _ _ Hreached Hfew) as HA.
  pose proof (count_le_length sub_new clients) as Hle. split.
  - destruct HA as [A1 A2 A3 A4 A5 A6 A7 _]. acc_nonneg (threads s).
    unfold counters_le. cbn. lia.
  - eapply exec_counters_le; [|exact HA|exact He]. lia.
Qed.

(** X9: Dropped is the number of calls of [Submit] that have returned an
    error; Submitted is the number of calls that found the pool open and
    have counted themselves, whatever became of them. *)
Theorem Submit_calls_accounted (c : Config) (clients : list Thread) (s : Sys)
    (Hreached : reached c clients s) (Hfew : Z.of_nat (length clients) <= MaxInt64) :
  Dropped (metrics (pool s)) = count sub_errored (threads s)
  /\ Submitted (metrics (pool s))
     = count sub_new clients - count sub_new (threads s) - count sub_refused (threads s)
  /\ Submitted (metrics (pool s)) - count sub_given_up (threads s)
     - count sub_trying (threads s)
     = count sub_sent (threads s).
Proof.
  destruct (reached_Accounting _ _ _ Hreached Hfew) as [A1 A2 A3 A4 A5 A6 A7 _].
  split; [|split; lia].
  rewrite A3. symmetry. apply count_split.
  - intros [|? ? [| | | | |[[]|]|]| |]; reflexivity.
  - intros [|? ? [| | | | |[[]|]|]| |]; reflexivity.
Qed.

(** X10: no admitted job is lost or counted twice: the jobs recorded as
    Succeeded or Failed, those in the hands of workers and those in the
    queue are together the calls of [Submit] that returned nil. *)
Theorem admitted_jobs_conserved (c : Config) (clients : list Thread) (s : Sys)
    (Hreached : reached c clients s) (Hfew : Z.of_nat (length clients) <= MaxInt64) :
  Succeeded (metrics (pool s)) + Failed (metrics (pool s))
  + count w_holding (threads s) + count w_running (threads s)
  + Z.of_nat (length (buf (jobs (pool s))))
  = count sub_sent (threads s).
Proof.
  exact (acc_jobs _ _ (reached_Accounting _ _ _ Hreached Hfew)).
Qed.


(** X12: when a call of [Shutdown] has returned, the queue is empty, every
    worker has exited and every admitted job has been recorded:
    Succeeded + Failed is the number of calls of [Submit] that returned
    nil.  If no cancellation was forced, each of these jobs was started,
    and none was skipped. *)
Theorem Shutdown_returns_with_all_jobs_recorded (c : Config) (clients : list Thread) (s : Sys)
    (Hreached : reached c clients s) (Hfew : Z.of_nat (length clients) <= MaxInt64)
    (i : nat) (r : option error) :
  threads s !! i = Some (TShutdown (ShReturn r)) ->
  buf (jobs (pool s)) = []
  /\ (forall j id pc, threads s !! j = Some (TWorker id pc) -> pc = WDone)
  /\ Succeeded (metrics (pool s)) + Failed (metrics (pool s)) = count sub_sent (threads s)
  /\ (workerCtx (pool s) = None ->
      Started (metrics (pool s)) = count sub_sent (threads s)
      /\ skips (logged (pool s)) = 0).
Proof.
  intros Hi. pose proof (reached_Shape _ _ _ Hreached) as HS.
  pose proof (reached_reachable _ _ _ Hreached) as Hr.
  pose proof (reachable_Inv _ Hr) as HI.
  pose proof (reached_Accounting _ _ _ Hreached Hfew) as HA.
  pose proof (reached_skip_law _ _ _ Hreached Hfew) as HK. unfold skip_law in HK.
  pose proof (count_lookup sh_returned _ i _ Hi eq_refl) as Hc.
  assert (Hd : doneCh s = true).
  { pose proof (shape_done _ _ HS) as H9. pose proof (inv_returned _ HI) as H10.
    unfold b2z in H9. destruct (doneCh s); [reflexivity | lia]. }
  pose proof (inv_done _ HI Hd) as Hwg.
  pose proof (workers_exited s Hr Hwg) as Hall.
  assert (Hgone : 0 < count w_gone (threads s)).
  { pose proof (shape_workers _ _ HS) as Hw. pose proof (effective_Workers c) as H1.
    destruct (count_pos is_worker (threads s)) as (j & t & Hj & Ht); [lia|].
    destruct t as [id pc| | |]; try discriminate Ht.
    rewrite (Hall j id pc Hj) in Hj.
    pose proof (count_lookup w_gone _ j _ Hj eq_refl). lia. }
  destruct (shape_gone _ _ HS Hgone) as [Hb _].
  assert (Hidle : forall P, (forall id, P (TWorker id WDone) = false) ->
                    (forall t, is_worker t = false -> P t = false) ->
                    count P (threads s) = 0).
  { intros P HP1 HP2. apply count_none, Forall_lookup_2. intros j t Hj.
    destruct t as [id pc| | |]; try (apply HP2; reflexivity).
    rewrite (Hall j id pc Hj). apply HP1. }
  assert (Hhold : count w_holding (threads s) = 0)
    by (apply Hidle; [reflexivity | intros [| | |]; done]).
  assert (Hrun : count w_running (threads s) = 0)
    by (apply Hidle; [reflexivity | intros [| | |]; done]).
  pose proof (acc_jobs _ _ HA) as A4.
  split; [destruct (buf (jobs (pool s))); [reflexivity | discriminate Hb]|].
  split; [exact Hall|]. split; [lia|].
  intros Hctx. destruct (acc_clean _ _ HA Hctx) as [_ Heq].
  split; [lia|]. lia.
Qed.


(** ** Submit against a concurrent Shutdown *)

(** X13: a [Submit] that has passed the check of the closed flag is not
    protected against a [Shutdown] that closes the queue before the send:
    its send case then panics with "send on closed channel", no worker
    can take the job, and as long as its context is not done the select
    has no other case to take; such a state is reached. *)
Theorem Submit_panics_when_queue_closed_under_it :
  (forall (s : Sys) (i : nat) (ctx : Context) (job : Job),
     threads s !! i = Some (TSubmit ctx job SSelect) ->
     ch_closed (jobs (pool s)) = true ->
     step (Run i Case1) s
     = Some (mkSys (pool s) (doneCh s)
               (<[i := TSubmit ctx job (SPanic "send on closed channel")]> (threads s)))
     /\ (forall w, step (Handoff i w) s = None)
     /\ (ctx = None -> step (Run i Case2) s = None))
  /\ exists (s : Sys) (i : nat) (job : Job),
       reachable s
       /\ threads s !! i = Some (TSubmit None job SSelect)
       /\ ch_closed (jobs (pool s)) = true.
Proof.
  split.
  - intros s i ctx job Hi Hc. split; [|split].
    + run_thread Hi. rewrite Hc. cbn. rewrite app_nil_r. reflexivity.
    + intros w. unfold step. rewrite Hi.
      destruct (threads s !! w) as [[id []| | |]|]; try reflexivity.
      rewrite Hc. destruct (buf (jobs (pool s))); reflexivity.
    + intros ->. run_thread Hi. reflexivity.
  - exists racing_pool, 1%nat, job_ok.
    split; [apply (reached_reachable _ _ _ racing_pool_reached)|].
    split; vm_compute; reflexivity.
Qed.

Lemma Submit_panics_when_queue_closed_under_it_witness :
  exists s', step (Run 1 Case1) racing_pool = Some s' /\ crashed s' = true.
Proof.
  destruct (proj1 Submit_panics_when_queue_closed_under_it racing_pool 1%nat None job_ok)
    as (Hs & _); [vm_compute; reflexivity | vm_compute; reflexivity |].
  eexists. split; [exact Hs|]. vm_compute. reflexivity.
Defined.

(** ** The lifecycle only moves forward *)

(** X14: under every schedule, from every state: the configuration and
    the capacity of the queue never change; the closed flag, once set,
    the queue, once closed, and the pool's context, once cancelled, stay
    so; and [once] never goes back. *)
Theorem lifecycle_only_moves_forward (tr : list Action) (s s' : Sys) :
  exec tr s = Some s' ->
  cfg (pool s') = cfg (pool s)
  /\ cap (jobs (pool s')) = cap (jobs (pool s))
  /\ (closed (pool s) = 1 -> closed (pool s') = 1)
  /\ (ch_closed (jobs (pool s)) = true -> ch_closed (jobs (pool s')) = true)
  /\ (workerCtx (pool s) <> None -> workerCtx (pool s') = workerCtx (pool s))
  /\ entered (once (pool s)) <= entered (once (pool s'))
  /\ completed (once (pool s)) <= completed (once (pool s')).
Proof.
  intros He.
  refine (exec_pool_invariant
            (fun p => cfg p = cfg (pool s)
                      /\ cap (jobs p) = cap (jobs (pool s))
                      /\ (closed (pool s) = 1 -> closed p = 1)
                      /\ (ch_closed (jobs (pool s)) = true -> ch_closed (jobs p) = true)
                      /\ (workerCtx (pool s) <> None -> workerCtx p = workerCtx (pool s))
                      /\ entered (once (pool s)) <= entered (once p)
                      /\ completed (once (pool s)) <= completed (once p))
            _ tr s s' He _).
  - intros sc t p d t' p' d' forked Ht (Q1 & Q2 & Q3 & Q4 & Q5 & Q6 & Q7).
    destruct t as [id pc|ctx job pc|pc|pc]; destruct pc; cbn in Ht; unfold out in Ht;
      repeat case_match; simplify_eq; cbn;
      unfold cancelWorkers, entered, completed in *; repeat case_match; cbn in *;
      repeat split; try assumption; try lia; try congruence; try (intuition congruence).
  - repeat split; auto; lia.
Qed.

Lemma lifecycle_only_moves_forward_witness :
  closed (pool forced_returned) = 1 /\ cap (jobs (pool forced_returned)) = 2.
Proof.
  assert (He : exec (forced_drain ++ forced_exit) (the (boot forced_cfg forced_clients))
               = Some forced_returned) by (vm_compute; reflexivity).
  destruct (lifecycle_only_moves_forward _ _ _ He) as (_ & Hcap & _).
  split; [vm_compute; reflexivity|]. rewrite Hcap. vm_compute. reflexivity.
Defined.

(** ** The properties at work *)

Lemma shut_pool_reached : reached forced_cfg shut_clients shut_pool.
Proof.
  apply (play_reached forced_cfg shut_clients
           [R 0; R 1; R 1; R 1; R 1; R 0; R 0; R 3; R 3; R 1]%nat);
    [repeat constructor | vm_compute; reflexivity].
Defined.

Lemma clean_start_reached :
  reached forced_cfg clean_clients (the (boot forced_cfg clean_clients)).
Proof.
  apply (play_reached forced_cfg clean_clients []);
    [repeat constructor | vm_compute; reflexivity].
Defined.

Lemma running_jobs_bounded_witness :
  count is_worker (threads forced_returned) = 1
  /\ count w_running (threads forced_returned) <= 1.
Proof.
  destruct (running_jobs_bounded forced_cfg forced_clients forced_returned
              forced_returned_reached) as (Hw & Hr & _).
  split; [exact Hw | exact Hr].
Defined.

Lemma queue_within_capacity_witness :
  Z.of_nat (length (buf (jobs (pool forced_returned)))) <= 2.
Proof.
  destruct (queue_within_capacity forced_cfg forced_clients forced_returned
              forced_returned_reached) as (_ & Hb & _).
  exact Hb.
Defined.

Lemma worker_exits_only_after_close_witness :
  ch_closed (jobs (pool clean_final)) = true /\ buf (jobs (pool clean_final)) = [].
Proof.
  destruct (worker_exits_only_after_close forced_cfg clean_clients clean_final
              clean_final_reached 0%nat (TWorker 0 WDone))
    as (Hc & Hb & _); [vm_compute; reflexivity | reflexivity |].
  split; [exact Hc | exact Hb].
Defined.

Lemma Shutdown_never_panics_witness : 0 <= wg (pool clean_final).
Proof.
  destruct (Shutdown_never_panics forced_cfg clean_clients clean_final clean_final_reached)
    as (_ & Hwg & _).
  exact Hwg.
Defined.

Lemma done_means_workers_exited_witness : wg (pool clean_final) = 0.
Proof.
  destruct (done_means_workers_exited forced_cfg clean_clients clean_final
              clean_final_reached) as (Hwg & _); [vm_compute; reflexivity|].
  exact Hwg.
Defined.

Lemma Submit_after_Shutdown_returned_witness :
  closed (pool shut_pool) = 1
  /\ exists s', exec [Run 2 Case1; Run 2 Case1] shut_pool = Some s'
                /\ Dropped (metrics (pool s')) = AddInt64 (Dropped (metrics (pool shut_pool))) 1.
Proof.
  destruct (Submit_after_Shutdown_returned forced_cfg shut_clients shut_pool
              shut_pool_reached 1%nat 2%nat None None job_ok Case1 Case1)
    as (Hc & _ & _ & He); [vm_compute; reflexivity | vm_compute; reflexivity |].
  split; [exact Hc|]. eexists. split; [exact He | reflexivity].
Defined.

Lemma counters_never_decrease_witness :
  counters_le (metrics (pool (the (boot forced_cfg clean_clients))))
    (metrics (pool clean_final)).
Proof.
  assert (Hfew : Z.of_nat (length clean_clients) <= MaxInt64)
    by (apply few_calls; cbn; lia).
  assert (He : exec clean_run (the (boot forced_cfg clean_clients)) = Some clean_final)
    by (vm_compute; reflexivity).
  exact (proj2 (counters_never_decrease forced_cfg clean_clients _ clean_start_reached
                  Hfew clean_run clean_final He)).
Defined.

Lemma Submit_calls_accounted_witness :
  Dropped (metrics (pool clean_final)) = count sub_errored (threads clean_final).
Proof.
  assert (Hfew : Z.of_nat (length clean_clients) <= MaxInt64)
    by (apply few_calls; cbn; lia).
  exact (proj1 (Submit_calls_accounted forced_cfg clean_clients clean_final
                  clean_final_reached Hfew)).
Defined.

Lemma admitted_jobs_conserved_witness :
  Succeeded (metrics (pool clean_final)) + Failed (metrics (pool clean_final))
  + count w_holding (threads clean_final) + count w_running (threads clean_final)
  + Z.of_nat (length (buf (jobs (pool clean_final))))
  = count sub_sent (threads clean_final).
Proof.
  assert (Hfew : Z.of_nat (length clean_clients) <= MaxInt64)
    by (apply few_calls; cbn; lia).
  exact (admitted_jobs_conserved forced_cfg clean_clients clean_final
           clean_final_reached Hfew).
Defined.


Lemma Shutdown_returns_with_all_jobs_recorded_witness :
  buf (jobs (pool forced_returned)) = []
  /\ Succeeded (metrics (pool forced_returned)) + Failed (metrics (pool forced_returned))
     = count sub_sent (threads forced_returned).
Proof.
  assert (Hfew : Z.of_nat (length forced_clients) <= MaxInt64)
    by (apply few_calls; cbn; lia).
  destruct (Shutdown_returns_with_all_jobs_recorded forced_cfg forced_clients
              forced_returned forced_returned_reached Hfew 3%nat
              (Some ErrShutdownTimeout)) as (Hb & _ & Hsf & _);
    [vm_compute; reflexivity|].
  split; [exact Hb | exact Hsf].
Defined.

(** ** A call of Metrics beside the goroutines of the pool *)

Lemma observe_between (n : Z) (lo : Metrics) (es : list Event) (s s' : Sys)
    (pc pc' : MetricsPc) :
  n <= MaxInt64 -> Accounting n s ->
  counters_le lo (metrics (pool s)) -> loaded_between lo (metrics (pool s)) pc ->
  observe es (s, pc) = Some (s', pc') ->
  Accounting n s' /\ counters_le lo (metrics (pool s'))
  /\ loaded_between lo (metrics (pool s')) pc'.
Proof.
  intros Hn. revert s pc. induction es as [|e es IH]; intros s pc HA Hlo Hpc He;
    cbn [observe] in He.
  - injection He as <- <-. auto.
  - destruct (observe_step e (s, pc)) as [[s1 pc1]|] eqn:Hs; [|discriminate He].
    cbn in He. destruct e as [a|]; cbn in Hs.
    + destruct (step a s) as [s2|] eqn:Ha; [|discriminate Hs]. injection Hs as <- <-.
      assert (Hle : counters_le (metrics (pool s)) (metrics (pool s2)))
        by (apply (exec_counters_le n [a] s s2 Hn HA); cbn; rewrite Ha; reflexivity).
      apply (IH s2 pc); [eapply step_Accounting; eassumption | | | exact He].
      * eapply counters_le_trans; eassumption.
      * clear IH He. destruct pc; cbn in *; unfold counters_le in *; first [exact I | lia].
    + destruct (Metrics_step (pool s) pc) as [pc2|] eqn:Hm; [|discriminate Hs].
      injection Hs as <- <-.
      apply (IH s pc2); [exact HA | exact Hlo | | exact He].
      clear IH He.
      destruct pc; cbn in Hm; simplify_eq; cbn in *; unfold counters_le in *; cbn; lia.
Qed.

Lemma observe_loads (es : list Event) (s s' : Sys) (pc pc' : MetricsPc) :
  Forall (fun e => e = Load) es -> observe es (s, pc) = Some (s', pc') -> s' = s.
Proof.
  revert pc. induction es as [|e es IH]; intros pc Hes He; cbn [observe] in He.
  - injection He as <- _. reflexivity.
  - inversion Hes as [|? ? -> Hes']; subst. cbn in He.
    destruct (Metrics_step (pool s) pc) as [pc2|]; [|discriminate He]. cbn in He.
    exact (IH pc2 Hes' He).
Qed.

Lemma torn_start_reached :
  reached forced_cfg torn_clients (the (boot forced_cfg torn_clients)).
Proof.
  apply (play_reached forced_cfg torn_clients []);
    [repeat constructor | vm_compute; reflexivity].
Defined.

(** X15: a call of [Metrics] never blocks, and whatever the goroutines of
    the pool do between its loads, every field of the snapshot it returns
    is a value between the counter at the call and the counter at the
    return; if nothing runs in between, the snapshot is the counters. *)
Theorem Metrics_fields_between_call_and_return (c : Config) (clients : list Thread) (s : Sys)
    (Hreached : reached c clients s) (Hfew : Z.of_nat (length clients) <= MaxInt64) :
  observe [Load; Load; Load; Load; Load] (s, MLoadSubmitted)
  = Some (s, MReturn (PoolMetrics (pool s)))
  /\ forall (es : list Event) (s' : Sys) (m : Metrics),
       observe es (s, MLoadSubmitted) = Some (s', MReturn m) ->
       counters_le (metrics (pool s)) m
       /\ counters_le m (metrics (pool s'))
       /\ (Forall (fun e => e = Load) es -> m = metrics (pool s)).
Proof.
  split; [reflexivity|]. intros es s' m He.
  pose proof (reached_Accounting _ _ _ Hreached Hfew) as HA.
  pose proof (count_le_length sub_new clients) as Hle.
  destruct (observe_between (count sub_new clients) (metrics (pool s)) es s s'
              MLoadSubmitted (MReturn m)) as (_ & _ & Hlo & Hhi);
    [lia | exact HA | apply counters_le_refl | exact I | exact He |].
  split; [exact Hlo|]. split; [exact Hhi|].
  intros Hes. rewrite (observe_loads _ _ _ _ _ Hes He) in Hhi.
  unfold counters_le in *. destruct m, (metrics (pool s)); cbn in *. f_equal; lia.
Qed.


Lemma Metrics_fields_between_call_and_return_witness :
  counters_le (metrics (pool (the (boot forced_cfg torn_clients)))) (mkMetrics 0 1 0 0 0)
  /\ counters_le (mkMetrics 0 1 0 0 0) (metrics (pool torn_pool)).
Proof.
  assert (Hfew : Z.of_nat (length torn_clients) <= MaxInt64)
    by (apply few_calls; cbn; lia).
  assert (He : observe torn_events (the (boot forced_cfg torn_clients), MLoadSubmitted)
               = Some (torn_pool, MReturn (mkMetrics 0 1 0 0 0)))
    by (vm_compute; reflexivity).
  destruct (proj2 (Metrics_fields_between_call_and_return forced_cfg torn_clients _
                     torn_start_reached Hfew) torn_events _ _ He) as (Hlo & Hhi & _).
  split; [exact Hlo | exact Hhi].
Defined.

(** X16: the snapshot of [Metrics] is not taken at one instant.  In every
    state of the pool Started is at most Submitted, yet a call of
    [Metrics] can return a snapshot with Started above Submitted. *)
Theorem Metrics_snapshot_can_be_torn :
  (forall (c : Config) (clients : list Thread) (s : Sys),
     reached c clients s -> Z.of_nat (length clients) <= MaxInt64 ->
     Started (PoolMetrics (pool s)) <= Submitted (PoolMetrics (pool s)))
  /\ exists (c : Config) (clients : list Thread) (s s' : Sys) (es : list Event)
            (m : Metrics),
       reached c clients s
       /\ Z.of_nat (length clients) <= MaxInt64
       /\ observe es (s, MLoadSubmitted) = Some (s', MReturn m)
       /\ Submitted m < Started m.
Proof.
  split.
  - intros c clients s Hr Hfew.
    destruct (reached_Accounting _ _ _ Hr Hfew) as [A1 A2 A3 A4 A5 A6 A7 _].
    acc_nonneg (threads s).
    pose proof (Nat2Z.is_nonneg (length (buf (jobs (pool s))))). cbn. lia.
  - exists forced_cfg, torn_clients, (the (boot forced_cfg torn_clients)).
    eexists. exists torn_events. eexists.
    split; [exact torn_start_reached|]. split; [apply few_calls; cbn; lia|].
    split; [vm_compute; reflexivity | reflexivity].
Qed.

Lemma Metrics_snapshot_can_be_torn_witness :
  Started (PoolMetrics (pool clean_final)) <= Submitted (PoolMetrics (pool clean_final)).
Proof.
  apply (proj1 Metrics_snapshot_can_be_torn forced_cfg clean_clients clean_final
           clean_final_reached).
  apply few_calls. cbn. lia.
Defined.

End workerpool.
